(** * TF2 Rich Presence: custom-map gamemode resolution and the main loop

    A shallow embedding of [custom_maps.py] and of the orchestrating class
    [TF2RichPresense] of [main.py], together with the properties the design
    document states about them.

    Python values are represented as follows.
    - [str] is [string]; [int] is [Z] (Python integers do not wrap).
    - A [dict] keyed by strings is a [gmap string _]; the value decoded from a
      JSON body is a [json] tree.
    - A function that may raise returns a [result]; the objects it mutates
      (the persisted [DB.json] document, the HTTP endpoint, the Discord IPC
      client, the fields of [self]) are threaded explicitly.
    - Calls on the logger and on the tk GUI do not influence any value
      modelled here and are left out.  Calls on other collaborators are
      taken to return; exceptions are modelled where the code handles them
      or the design speaks of them: the HTTP request, the decoding and the
      use of its body, and the Discord IPC client. *)

From Stdlib Require Import ZArith QArith String Ascii List Bool Lia.
From stdpp Require Import base gmap strings list fin_maps.

Local Set Warnings "-register-all".
Local Open Scope Z_scope.
Local Open Scope string_scope.

(** ** Python values shared by both modules *)

Module Py.

(** What [json.loads] / [Response.json()] produces.  [JObj] lists the items
    of the decoded [dict] in order; subscripting takes the binding of the
    key. *)
Inductive json : Type :=
| JNull
| JBool (b : bool)
| JNum (n : Z)
| JStr (s : string)
| JArr (l : list json)
| JObj (o : list (string * json)).

(** Classes of [Exception] instances that the modelled code distinguishes. *)
Inductive exc_class : Type :=
| ConnectTimeout
| ReadTimeout
| KeyError
| TypeError
| AttributeError
| OtherException (name : string).

(** An instance of (a subclass of) [Exception]; [exc_str] is [str(e)]. *)
Record py_exc : Type := PyExc { exc_kind : exc_class; exc_str : string }.

Inductive result (A : Type) : Type :=
| Return (a : A)
| Raise (e : py_exc).
Arguments Return {A} a.
Arguments Raise {A} e.

(** [d[key]] on the items of a dict. *)
Fixpoint dict_get (key : string) (o : list (string * json)) : option json :=
  match o with
  | [] => None
  | (k, v) :: o' => if bool_decide (k = key) then Some v else dict_get key o'
  end.

(** The one-character strings obtained by iterating over a [str]. *)
Fixpoint chars (s : string) : list string :=
  match s with
  | EmptyString => []
  | String c s' => String c EmptyString :: chars s'
  end.

End Py.
Import Py.

(** ** custom_maps.py *)

Module CustomMaps.

(** A cached resolution, the list [[gamemode, fancy, seconds_since_epoch]]. *)
Record cache_entry : Type :=
  CacheEntry { ce_gamemode : string; ce_fancy : string; ce_time : Z }.

(** The persisted [DB.json] document: its ['custom_maps'] section and the
    sections this module never looks at. *)
Record document : Type :=
  Document { custom_maps : gmap string cache_entry;
             other_sections : list (string * json) }.

(** Observable accesses to the outside world, most recent first. *)
Inductive event : Type :=
| DbRead
| DbWrite (d : document)
| HttpGet (url : string) (timeout : Q).

Record world : Type := World { db : document; trace : list event }.

Definition record (ev : event) (w : world) : world :=
  {| db := db w; trace := ev :: trace w |}.

Definition is_http (ev : event) : bool :=
  match ev with HttpGet _ _ => true | _ => false end.
Definition is_db_read (ev : event) : bool :=
  match ev with DbRead => true | _ => false end.
Definition is_db_write (ev : event) : bool :=
  match ev with DbWrite _ => true | _ => false end.

(** Number of requests sent to teamwork.tf so far. *)
Definition http_calls (w : world) : nat := length (List.filter is_http (trace w)).
Definition db_reads (w : world) : nat := length (List.filter is_db_read (trace w)).
Definition db_writes (w : world) : nat := length (List.filter is_db_write (trace w)).

(** Modelled from the spec: [utils.access_db()] (module [utils] is not part
    of the sources).  The persistence collaborator exposes
    [read() -> document]; the call without argument is that read. *)
Definition access_db_read (w : world) : document * world :=
  (db w, record DbRead w).

(** Modelled from the spec: [utils.access_db(db)], the collaborator's
    [write(document)], which replaces the persisted document. *)
Definition access_db_write (d : document) (w : world) : world :=
  {| db := d; trace := DbWrite d :: trace w |}.

(** [if dict_input:] -- [None] and the empty dict are both falsy. *)
Definition truthy (dict_input : option (gmap string cache_entry)) : bool :=
  match dict_input with
  | Some d => negb (bool_decide (d = ∅))
  | None => false
  end.

(** reads or writes the cache of custom maps in DB.json; the write branch
    falls off the end of the function and so returns [None]. *)
Definition access_custom_maps_cache
    (dict_input : option (gmap string cache_entry)) (w : world)
  : option (gmap string cache_entry) * world :=
  if truthy dict_input then
    let '(d, w1) := access_db_read w in
    let d' := {| custom_maps := default ∅ dict_input;
                 other_sections := other_sections d |} in
    (None, access_db_write d' w1)
  else
    let '(d, w1) := access_db_read w in
    (Some (custom_maps d), w1).

(** The translation table at the bottom of the file. *)
Definition gamemodes : gmap string string :=
  list_to_map
    [("ctf", "Capture the Flag"); ("control-point", "Control Point");
     ("attack-defend", "Attack/Defend");
     ("medieval-mode", "Attack/Defend (Medieval Mode)");
     ("territorial-control", "Territorial Control"); ("payload", "Payload");
     ("payload-race", "Payload Race"); ("koth", "King of the Hill");
     ("special-delivery", "Special Delivery"); ("mvm", "Mann vs. Machine");
     ("beta-map", "Robot Destruction"); ("mannpower", "Mannpower");
     ("passtime", "PASS Time"); ("player-destruction", "Player Destruction");
     ("arena", "Arena"); ("training", "Training"); ("surfing", "Surfing");
     ("trading", "Trading"); ("jumping", "Jumping");
     ("deathmatch", "Deathmatch"); ("cp-orange", "Orange");
     ("versus-saxton-hale", "Versus Saxton Hale"); ("deathrun", "Deathrun");
     ("achievement", "Achievement"); ("breakout", "Jail Breakout");
     ("slender", "Slender"); ("dodgeball", "Dodgeball");
     ("mario-kart", "Mario Kart"); ("prophunt", "Prop Hunt");
     ("class-wars", "Class Wars"); ("stop-that-tank", "Stop that Tank!")].

(** The fallback result. *)
Definition unknown : string * string := ("unknown_map", "Unknown gamemode").

(** What [requests.get(...)] followed by [r.json()] yields. *)
Inductive fetched : Type :=
| Body (map_info : json)
| Throws (e : py_exc).

(** The surroundings of one call: the clock and the remote service. *)
Record env : Type :=
  Env { time_now : Z;                       (* int(time.time()) *)
        requests_get : string -> Q -> fetched }.

(** [map_info['all_gamemodes']] *)
Definition all_gamemodes (map_info : json) : result json :=
  match map_info with
  | JObj o =>
      match dict_get "all_gamemodes" o with
      | Some v => Return v
      | None => Raise (PyExc KeyError "'all_gamemodes'")
      end
  | _ => Raise (PyExc TypeError "bad subscript")
  end.

(** The values a [for] loop over a decoded JSON value visits. *)
Definition iterate (v : json) : result (list json) :=
  match v with
  | JArr l => Return l
  | JStr s => Return (map JStr (chars s))
  | JObj o => Return (map (fun kv => JStr (fst kv)) o)
  | _ => Raise (PyExc TypeError "object is not iterable")
  end.

(** The loop [for gamemode in map_gamemode: if gamemode in gamemodes_keys]:
    the first element that is a key of [gamemodes], with its fancy name.
    Testing a list or a dict for membership in a keys view raises. *)
Fixpoint first_gamemode (l : list json) : result (option (string * string)) :=
  match l with
  | [] => Return None
  | JStr g :: l' =>
      match gamemodes !! g with
      | Some fancy => Return (Some (g, fancy))
      | None => first_gamemode l'
      end
  | JArr _ :: _ | JObj _ :: _ => Raise (PyExc TypeError "unhashable type")
  | _ :: l' => first_gamemode l'
  end.

Section Resolver.

(** [load_maps_db()['common_custom']], the bundled and memoized table. *)
Variable common_custom : gmap string (string * string).
(** [settings.get('map_invalidation_hours')] *)
Variable map_invalidation_hours : Z.
(** [utils.get_api_key] *)
Variable get_api_key : string -> string.

Definition api_url (map_filename : string) : string :=
  "https://teamwork.tf/api/v1/map-stats/map/" +:+ map_filename
    +:+ "?key=" +:+ get_api_key "teamwork".

(** The first [try] block: [Some] is the early return of the cached pair,
    [None] stands for the [KeyError] that sends control to the handler. *)
Definition look_in_cache (force_api : bool) (now : Z)
    (custom_map_gamemodes : gmap string cache_entry) (map_filename : string)
  : option (string * string) :=
  if force_api then None
  else
    match custom_map_gamemodes !! map_filename with
    | Some cached_data =>
        if bool_decide (now - ce_time cached_data
                        <= map_invalidation_hours * 3600)
        then Some (ce_gamemode cached_data, ce_fancy cached_data)
        else None
    | None => None
    end.

(** Store [[gamemode, fancy, now]] under the map name and persist. *)
Definition cache_and_return (custom_map_gamemodes : gmap string cache_entry)
    (map_filename : string) (now : Z) (found : string * string) (w : world)
  : result (string * string) * world :=
  let modified :=
    <[map_filename := CacheEntry (fst found) (snd found) now]>
      custom_map_gamemodes in
  let '(_, w') := access_custom_maps_cache (Some modified) w in
  (Return found, w').

(** The second [try] block and what follows it. *)
Definition parse_api_result (custom_map_gamemodes : gmap string cache_entry)
    (map_filename : string) (now : Z) (map_info : json) (w : world)
  : result (string * string) * world :=
  match all_gamemodes map_info with
  | Raise e =>
      match exc_kind e with
      | KeyError => cache_and_return custom_map_gamemodes map_filename now unknown w
      | _ => (Raise e, w)
      end
  | Return map_gamemode =>
      match iterate map_gamemode with
      | Raise e => (Raise e, w)
      | Return tags =>
          match first_gamemode tags with
          | Raise e => (Raise e, w)
          | Return (Some found) =>
              cache_and_return custom_map_gamemodes map_filename now found w
          | Return None =>
              cache_and_return custom_map_gamemodes map_filename now unknown w
          end
      end
  end.

(** The [except KeyError] handler of the cache lookup. *)
Definition ask_api (e : env) (custom_map_gamemodes : gmap string cache_entry)
    (map_filename : string) (timeout : Q) (w : world)
  : result (string * string) * world :=
  let url := api_url map_filename in
  let w1 := record (HttpGet url timeout) w in
  match requests_get e url timeout with
  | Throws ex =>
      match exc_kind ex with
      | ConnectTimeout | ReadTimeout => (Return unknown, w1)
      | _ => (Return unknown, w1)
      end
  | Body map_info =>
      parse_api_result custom_map_gamemodes map_filename (time_now e) map_info w1
  end.

(** uses teamwork.tf's API to find the gamemode of a custom map *)
Definition find_custom_map_gamemode (e : env) (map_filename : string)
    (force_api : bool) (timeout : Q) (w : world)
  : result (string * string) * world :=
  if bool_decide (map_filename = "") then (Return unknown, w)
  else
    let seconds_since_epoch_now := time_now e in
    match common_custom !! map_filename with
    | Some gamemode => (Return gamemode, w)
    | None =>
        match access_custom_maps_cache None w with
        | (None, w1) => (Raise (PyExc TypeError "object of type 'NoneType' has no len()"), w1)
        | (Some custom_map_gamemodes, w1) =>
            match look_in_cache force_api seconds_since_epoch_now
                    custom_map_gamemodes map_filename with
            | Some cached => (Return cached, w1)
            | None => ask_api e custom_map_gamemodes map_filename timeout w1
            end
        end
    end.

End Resolver.

End CustomMaps.

(** ** main.py *)

Module Main.

(** The [discoIPC] client object, as far as [main.py] looks at it. *)
Record DiscordIPC : Type :=
  Client { client_id : string; connected : bool }.

(** One entry of the dict returned by [ProcessScanner.scan]. *)
Record process_info : Type :=
  ProcessInfo { running : bool; pid : option Z; path : option string;
                time : option Z }.

(** [p_data], with its three keys. *)
Record scan_result : Type :=
  Scan { TF2 : process_info; Discord : process_info; Steam : process_info }.

Definition activity_dict : Type := list (string * string).

(** Calls made on collaborators, most recent first. *)
Inductive effect : Type :=
| ClassConfigFiles (tf2_path : option string)
| SteamConfigFile (steam_path : option string)
| IpcConnect (key : string)
| IpcUpdateActivity (a : activity_dict)
| IpcDisconnect
| InitOperations
| LowerPriority.

(** The fields of [self] that [loop_body], [necessary_program_not_running],
    [send_rpc_activity] and [init_operations] assign or test, with the calls
    they have made on collaborators.  The front end ([self.gui]), the log
    interpreter with its bookkeeping ([console_log_mtime] and the like) and
    the aggregated game state ([self.game_state]) are collaborators: what
    they report during a pass is part of [tick_input]. *)
Record session : Type :=
  Session {
    rpc_client : option DiscordIPC;
    client_connected : bool;
    test_state : string;
    activity : activity_dict;
    should_mention_discord : bool;
    should_mention_tf2 : bool;
    should_mention_steam : bool;
    has_checked_class_configs : bool;
    loop_iteration : Z;
    valid_usernames : gset string;
    steam_config_mtimes : gmap string Z;
    slow_sleep_time : bool;
    has_set_process_priority : bool;
    did_init_operations : bool;
    no_condebug : bool;
    fast_next_loop : bool;
    effects : list effect }.

(** Assignments [self.field = v]. *)
Definition set_rpc_client (v : option DiscordIPC) (s : session) : session :=
  Session v (client_connected s) (test_state s) (activity s)
    (should_mention_discord s) (should_mention_tf2 s)
    (should_mention_steam s) (has_checked_class_configs s)
    (loop_iteration s) (valid_usernames s) (steam_config_mtimes s)
    (slow_sleep_time s) (has_set_process_priority s) (did_init_operations s)
    (no_condebug s) (fast_next_loop s) (effects s).
Definition set_client_connected (v : bool) (s : session) : session :=
  Session (rpc_client s) v (test_state s) (activity s)
    (should_mention_discord s) (should_mention_tf2 s)
    (should_mention_steam s) (has_checked_class_configs s)
    (loop_iteration s) (valid_usernames s) (steam_config_mtimes s)
    (slow_sleep_time s) (has_set_process_priority s) (did_init_operations s)
    (no_condebug s) (fast_next_loop s) (effects s).
Definition set_test_state (v : string) (s : session) : session :=
  Session (rpc_client s) (client_connected s) v (activity s)
    (should_mention_discord s) (should_mention_tf2 s)
    (should_mention_steam s) (has_checked_class_configs s)
    (loop_iteration s) (valid_usernames s) (steam_config_mtimes s)
    (slow_sleep_time s) (has_set_process_priority s) (did_init_operations s)
    (no_condebug s) (fast_next_loop s) (effects s).
Definition set_activity (v : activity_dict) (s : session) : session :=
  Session (rpc_client s) (client_connected s) (test_state s) v
    (should_mention_discord s) (should_mention_tf2 s)
    (should_mention_steam s) (has_checked_class_configs s)
    (loop_iteration s) (valid_usernames s) (steam_config_mtimes s)
    (slow_sleep_time s) (has_set_process_priority s) (did_init_operations s)
    (no_condebug s) (fast_next_loop s) (effects s).
Definition set_should_mention_discord (v : bool) (s : session) : session :=
  Session (rpc_client s) (client_connected s) (test_state s) (activity s) v
    (should_mention_tf2 s) (should_mention_steam s)
    (has_checked_class_configs s) (loop_iteration s) (valid_usernames s)
    (steam_config_mtimes s) (slow_sleep_time s) (has_set_process_priority s)
    (did_init_operations s) (no_condebug s) (fast_next_loop s) (effects s).
Definition set_should_mention_tf2 (v : bool) (s : session) : session :=
  Session (rpc_client s) (client_connected s) (test_state s) (activity s)
    (should_mention_discord s) v (should_mention_steam s)
    (has_checked_class_configs s) (loop_iteration s) (valid_usernames s)
    (steam_config_mtimes s) (slow_sleep_time s) (has_set_process_priority s)
    (did_init_operations s) (no_condebug s) (fast_next_loop s) (effects s).
Definition set_should_mention_steam (v : bool) (s : session) : session :=
  Session (rpc_client s) (client_connected s) (test_state s) (activity s)
    (should_mention_discord s) (should_mention_tf2 s) v
    (has_checked_class_configs s) (loop_iteration s) (valid_usernames s)
    (steam_config_mtimes s) (slow_sleep_time s) (has_set_process_priority s)
    (did_init_operations s) (no_condebug s) (fast_next_loop s) (effects s).
Definition set_has_checked_class_configs (v : bool) (s : session) : session :=
  Session (rpc_client s) (client_connected s) (test_state s) (activity s)
    (should_mention_discord s) (should_mention_tf2 s)
    (should_mention_steam s) v (loop_iteration s) (valid_usernames s)
    (steam_config_mtimes s) (slow_sleep_time s) (has_set_process_priority s)
    (did_init_operations s) (no_condebug s) (fast_next_loop s) (effects s).
Definition set_loop_iteration (v : Z) (s : session) : session :=
  Session (rpc_client s) (client_connected s) (test_state s) (activity s)
    (should_mention_discord s) (should_mention_tf2 s)
    (should_mention_steam s) (has_checked_class_configs s) v
    (valid_usernames s) (steam_config_mtimes s) (slow_sleep_time s)
    (has_set_process_priority s) (did_init_operations s) (no_condebug s)
    (fast_next_loop s) (effects s).
Definition set_valid_usernames (v : gset string) (s : session) : session :=
  Session (rpc_client s) (client_connected s) (test_state s) (activity s)
    (should_mention_discord s) (should_mention_tf2 s)
    (should_mention_steam s) (has_checked_class_configs s)
    (loop_iteration s) v (steam_config_mtimes s) (slow_sleep_time s)
    (has_set_process_priority s) (did_init_operations s) (no_condebug s)
    (fast_next_loop s) (effects s).
Definition set_slow_sleep_time (v : bool) (s : session) : session :=
  Session (rpc_client s) (client_connected s) (test_state s) (activity s)
    (should_mention_discord s) (should_mention_tf2 s)
    (should_mention_steam s) (has_checked_class_configs s)
    (loop_iteration s) (valid_usernames s) (steam_config_mtimes s) v
    (has_set_process_priority s) (did_init_operations s) (no_condebug s)
    (fast_next_loop s) (effects s).
Definition set_has_set_process_priority (v : bool) (s : session) : session :=
  Session (rpc_client s) (client_connected s) (test_state s) (activity s)
    (should_mention_discord s) (should_mention_tf2 s)
    (should_mention_steam s) (has_checked_class_configs s)
    (loop_iteration s) (valid_usernames s) (steam_config_mtimes s)
    (slow_sleep_time s) v (did_init_operations s) (no_condebug s)
    (fast_next_loop s) (effects s).
Definition set_did_init_operations (v : bool) (s : session) : session :=
  Session (rpc_client s) (client_connected s) (test_state s) (activity s)
    (should_mention_discord s) (should_mention_tf2 s)
    (should_mention_steam s) (has_checked_class_configs s)
    (loop_iteration s) (valid_usernames s) (steam_config_mtimes s)
    (slow_sleep_time s) (has_set_process_priority s) v (no_condebug s)
    (fast_next_loop s) (effects s).
Definition set_no_condebug (v : bool) (s : session) : session :=
  Session (rpc_client s) (client_connected s) (test_state s) (activity s)
    (should_mention_discord s) (should_mention_tf2 s)
    (should_mention_steam s) (has_checked_class_configs s)
    (loop_iteration s) (valid_usernames s) (steam_config_mtimes s)
    (slow_sleep_time s) (has_set_process_priority s) (did_init_operations s)
    v (fast_next_loop s) (effects s).
Definition set_fast_next_loop (v : bool) (s : session) : session :=
  Session (rpc_client s) (client_connected s) (test_state s) (activity s)
    (should_mention_discord s) (should_mention_tf2 s)
    (should_mention_steam s) (has_checked_class_configs s)
    (loop_iteration s) (valid_usernames s) (steam_config_mtimes s)
    (slow_sleep_time s) (has_set_process_priority s) (did_init_operations s)
    (no_condebug s) v (effects s).
Definition set_effects (v : list effect) (s : session) : session :=
  Session (rpc_client s) (client_connected s) (test_state s) (activity s)
    (should_mention_discord s) (should_mention_tf2 s)
    (should_mention_steam s) (has_checked_class_configs s)
    (loop_iteration s) (valid_usernames s) (steam_config_mtimes s)
    (slow_sleep_time s) (has_set_process_priority s) (did_init_operations s)
    (no_condebug s) (fast_next_loop s) v.
Definition add_effect (ef : effect) (s : session) : session :=
  set_effects (ef :: effects s) s.

(** [TF2RichPresense.__init__], where [set_process_priority] is its
    argument. *)
Definition init (set_process_priority : bool) : session :=
  {| rpc_client := None; client_connected := false; test_state := "init";
     activity := []; should_mention_discord := true;
     should_mention_tf2 := true; should_mention_steam := true;
     has_checked_class_configs := false; loop_iteration := 0;
     valid_usernames := ∅; steam_config_mtimes := ∅;
     slow_sleep_time := false;
     has_set_process_priority := negb set_process_priority;
     did_init_operations := false; no_condebug := false;
     fast_next_loop := false; effects := [] |}.

(** The methods of an imported [custom.TF2RPCustom] (a module that is not
    part of the sources); each receives [self] and may assign its fields. *)
Record TF2RPCustom : Type :=
  Custom { before_loop : session -> session;
           loop_middle : session -> session;
           after_loop : session -> session }.

(** What the surroundings present during one pass of the loop. *)
Record tick_input : Type :=
  Tick { gui_alive : bool;                        (* self.gui.alive *)
         scan : scan_result;                      (* self.process_scanner.scan() *)
         stat_mtime : string -> Z;                (* int(os.stat(f).st_mtime) *)
         steam_config_results : option (gset string);
                                                  (* self.steam_config_file(path) *)
         in_menus : bool;                         (* self.game_state.in_menus *)
         update_rpc : bool;                       (* self.game_state.update_rpc *)
         game_activity : activity_dict;           (* self.game_state.activity() *)
         ipc_connect : option py_exc;             (* what connect() raises *)
         ipc_update : option py_exc }.            (* what update_activity() raises *)

(** *** Statements that mutate [self] and may raise *)

Inductive outcome (A : Type) : Type :=
| Done (a : A) (s : session)
| Raised (e : py_exc) (s : session)
| Exited (s : session).                 (* SystemExit *)
Arguments Done {A} a s.
Arguments Raised {A} e s.
Arguments Exited {A} s.

Definition action (A : Type) : Type := session -> outcome A.

Definition ret {A : Type} (a : A) : action A := fun s => Done a s.

Definition bind {A B : Type} (m : action A) (k : A -> action B) : action B :=
  fun s =>
    match m s with
    | Done a s' => k a s'
    | Raised e s' => Raised e s'
    | Exited s' => Exited s'
    end.

Notation "x <- m ;; k" := (bind m (fun x => k))
  (at level 100, m at next level, right associativity).
Notation "m ;; k" := (bind m (fun _ => k))
  (at level 100, right associativity).

Definition raise {A : Type} (e : py_exc) : action A := fun s => Raised e s.
Definition system_exit {A : Type} : action A := fun s => Exited s.
Definition assign (f : session -> session) : action unit :=
  fun s => Done tt (f s).
Definition read {A : Type} (field : session -> A) : action A :=
  fun s => Done (field s) s.
Definition when (b : bool) (m : action unit) : action unit :=
  if b then m else ret tt.

(** [try: m except Exception as e: h e]; [SystemExit] is not an
    [Exception] and passes through. *)
Definition try_except {A : Type} (m : action A) (h : py_exc -> action A)
  : action A :=
  fun s =>
    match m s with
    | Raised e s' => h e s'
    | o => o
    end.

Definition final {A : Type} (o : outcome A) : session :=
  match o with Done _ s | Raised _ s | Exited s => s end.

(** [str.lower], on ASCII letters. *)
Definition lower_ascii (c : ascii) : ascii :=
  let n := nat_of_ascii c in
  if (65 <=? n)%nat && (n <=? 90)%nat then ascii_of_nat (n + 32) else c.

Fixpoint lower (s : string) : string :=
  match s with
  | EmptyString => EmptyString
  | String c s' => String (lower_ascii c) (lower s')
  end.

(** The two messages [send_rpc_activity] lets pass. *)
Definition cant_send : string := "Can't send data to Discord via IPC.".
Definition cant_connect : string := "Can't connect to Discord Client.".

Definition recognized (message : string) : bool :=
  bool_decide (message = cant_send) || bool_decide (message = cant_connect).

Definition none_has_no_attribute (attr : string) : py_exc :=
  PyExc AttributeError ("'NoneType' object has no attribute '" +:+ attr +:+ "'").

Section App.

(** [self.custom_functions], fixed by [import_custom] at construction. *)
Variable custom_functions : option TF2RPCustom.
(** [utils.get_api_key] *)
Variable get_api_key : string -> string.
(** [settings.get('wait_time')] and [settings.get('wait_time_slow')] *)
Variable wait_time : Z.
Variable wait_time_slow : Z.

(** [if self.custom_functions: self.custom_functions.f(self)] *)
Definition custom (f : TF2RPCustom -> session -> session) : action unit :=
  match custom_functions with
  | Some c => assign (f c)
  | None => ret tt
  end.

(** sends RPC data, connecting to Discord initially if need be *)
Definition send_rpc_activity (i : tick_input) : action unit :=
  try_except
    (connected_already <- read client_connected ;;
     when (negb connected_already)
       (assign (set_rpc_client (Some (Client (get_api_key "discord2") false))) ;;
        assign (add_effect (IpcConnect (get_api_key "discord2"))) ;;
        match ipc_connect i with
        | Some e => raise e
        | None =>
            assign (set_rpc_client (Some (Client (get_api_key "discord2") true)))
        end) ;;
     client <- read rpc_client ;;
     match client with
     | None => raise (none_has_no_attribute "update_activity")
     | Some _ =>
         a <- read activity ;;
         assign (add_effect (IpcUpdateActivity a)) ;;
         match ipc_update i with
         | Some e => raise e
         | None => assign (set_client_connected true)
         end
     end)
    (fun client_connect_error =>
       if recognized (exc_str client_connect_error) then ret tt
       else raise client_connect_error).

Definition necessary_program_not_running (program_name name_short : string)
  : action unit :=
  let name_short :=
    if bool_decide (name_short = "") then program_name else name_short in
  assign (set_test_state ("no " +:+ lower name_short)) ;;
  assign (set_slow_sleep_time true) ;;
  was_connected <- read client_connected ;;
  when was_connected
    (client <- read rpc_client ;;
     match client with
     | None => raise (none_has_no_attribute "disconnect")
     | Some c =>
         assign (add_effect IpcDisconnect) ;;
         assign (set_rpc_client (Some (Client (client_id c) false))) ;;
         assign (set_client_connected false)
     end).

(** do stuff that was previously in init.py, but only after one main loop *)
Definition init_operations : action unit :=
  did <- read did_init_operations ;;
  when (negb did)
    (assign (set_did_init_operations true) ;;
     assign (add_effect InitOperations)).

(** [if steam_config_results:] -- [None] and the empty set are falsy. *)
Definition nonempty (r : option (gset string)) : bool :=
  match r with
  | Some names => negb (bool_decide (names = ∅))
  | None => false
  end.

(** The scan of Steam's config files at the top of [loop_body]. *)
Definition steam_configs (i : tick_input) : action unit :=
  let p_data := scan i in
  when (running (Steam p_data))
    (mtimes <- read steam_config_mtimes ;;
     let config_scan_needed :=
       bool_decide (mtimes = ∅)
       || existsb (fun kv => bool_decide (snd kv < stat_mtime i (fst kv)))
            (map_to_list mtimes) in
     when config_scan_needed
       (assign (add_effect (SteamConfigFile (path (Steam p_data)))) ;;
        if nonempty (steam_config_results i) then
          names <- read valid_usernames ;;
          assign (set_valid_usernames
                    (names ∪ default ∅ (steam_config_results i)))
        else assign (set_no_condebug true))).

(** The branch taken when TF2, Discord and Steam are all running. *)
Definition all_running (i : tick_input) : action unit :=
  let p_data := scan i in
  checked <- read has_checked_class_configs ;;
  when (negb checked)
    (assign (add_effect (ClassConfigFiles (path (TF2 p_data)))) ;;
     assign (set_has_checked_class_configs true)) ;;
  (if in_menus i then assign (set_test_state "menus")
   else assign (set_test_state "in game")) ;;
  if update_rpc i then
    assign (set_activity (game_activity i)) ;;
    custom loop_middle ;;
    send_rpc_activity i
  else custom loop_middle.

(** the main logic. runs every 2 or 5 seconds (by default) *)
Definition loop_body (i : tick_input)
  : action (bool * option DiscordIPC) :=
  if negb (gui_alive i) then system_exit
  else
    let p_data := scan i in
    assign (set_slow_sleep_time false) ;;
    n <- read loop_iteration ;;
    assign (set_loop_iteration (n + 1)) ;;
    assign (set_no_condebug false) ;;
    assign (set_fast_next_loop false) ;;
    custom before_loop ;;
    steam_configs i ;;
    (if running (TF2 p_data) && running (Discord p_data)
        && running (Steam p_data)
     then all_running i
     else if negb (running (TF2 p_data)) then
       necessary_program_not_running "Team Fortress 2" "TF2" ;;
       assign (set_should_mention_tf2 false)
     else if negb (running (Discord p_data)) then
       necessary_program_not_running "Discord" "" ;;
       assign (set_should_mention_discord false)
     else
       necessary_program_not_running "Steam" "" ;;
       assign (set_should_mention_steam false)) ;;
    custom after_loop ;;
    init_operations ;;
    warn <- read no_condebug ;;
    when warn (assign (set_fast_next_loop true)) ;;
    lowered <- read has_set_process_priority ;;
    when (negb lowered)
      (assign (add_effect LowerPriority) ;;
       assign (set_has_set_process_priority true)) ;;
    cc <- read client_connected ;;
    rc <- read rpc_client ;;
    ret (cc, rc).

(** The interval [run] sleeps for after a pass. *)
Definition sleep_time (s : session) : Z :=
  if slow_sleep_time s then wait_time_slow else wait_time.

(** [run], cut off after the passes in [ticks]: the loop goes on until
    [loop_body] raises. *)
Fixpoint run (ticks : list tick_input) : action unit :=
  match ticks with
  | [] => ret tt
  | i :: ticks' => loop_body i ;; run ticks'
  end.

End App.

End Main.

(** ** tests.py *)

Module Tests.

(** [d[key] = v] on the items of a dict: the value of a key that is present
    is replaced where it stands, a new key is added at the end. *)
Fixpoint dict_set (key : string) (v : json) (o : list (string * json))
  : list (string * json) :=
  match o with
  | [] => [(key, v)]
  | (k, x) :: o' =>
      if bool_decide (k = key) then (k, v) :: o'
      else (k, x) :: dict_set key v o'
  end.

(** [x[key]] for a string [key]: only a dict can be subscripted with one. *)
Definition subscript (x : json) (key : string) : result json :=
  match x with
  | JObj o =>
      match dict_get key o with
      | Some v => Return v
      | None => Raise (PyExc KeyError key)
      end
  | _ => Raise (PyExc TypeError "bad subscript")
  end.

(** [int(x * 0)]: a number or a boolean times zero is zero; a string times
    zero is the empty string, which [int] rejects; a list times zero is the
    empty list, which [int] does not take; [None] and a dict cannot be
    multiplied. *)
Definition int_times_zero (x : json) : result json :=
  match x with
  | JNum _ | JBool _ => Return (JNum 0)
  | JStr _ =>
      Raise (PyExc (OtherException "ValueError")
               "invalid literal for int() with base 10: ''")
  | JArr _ => Raise (PyExc TypeError "int() argument must not be a list")
  | JNull | JObj _ =>
      Raise (PyExc TypeError "unsupported operand type(s) for *")
  end.

(** The statement inside the [try]:
    [activity['timestamps']['start'] = int(activity['timestamps']['start'] * 0)].
    The right-hand side is evaluated first; the dict under ['timestamps'] is
    then changed in place. *)
Definition reset_start (activity : list (string * json))
  : result (list (string * json)) :=
  match subscript (JObj activity) "timestamps" with
  | Raise e => Raise e
  | Return timestamps =>
      match subscript timestamps "start" with
      | Raise e => Raise e
      | Return start =>
          match int_times_zero start with
          | Raise e => Raise e
          | Return zero =>
              match timestamps with
              | JObj o =>
                  Return (dict_set "timestamps"
                            (JObj (dict_set "start" zero o)) activity)
              | _ => Raise (PyExc TypeError "bad subscript")
              end
          end
      end
  end.

Definition fix_activity_dict (activity : list (string * json))
  : result (list (string * json)) :=
  match reset_start activity with
  | Raise e =>
      match exc_kind e with
      | KeyError => Return activity
      | _ => Raise e
      end
  | Return activity' => Return activity'
  end.

End Tests.

(** * Vocabulary of the statements about custom_maps.py *)

Module CustomMapsSpec.
Import CustomMaps.

(** A decoded response in which no tag names a known gamemode: a JSON
    object without an ['all_gamemodes'] member, or one whose
    ['all_gamemodes'] is a list of strings none of which is a key of
    [gamemodes]. *)
Inductive unresolvable : json -> Prop :=
| no_member (o : list (string * json)) :
    dict_get "all_gamemodes" o = None -> unresolvable (JObj o)
| no_known_tag (o : list (string * json)) (tags : list string) :
    dict_get "all_gamemodes" o = Some (JArr (map JStr tags)) ->
    Forall (fun t => gamemodes !! t = None) tags ->
    unresolvable (JObj o).

Section Calls.

Variable common_custom : gmap string (string * string).
Variable map_invalidation_hours : Z.
Variable get_api_key : string -> string.

(** The cache does not settle a call: the call is forced, or the map has no
    entry, or its entry is older than the TTL. *)
Definition not_cached (force_api : bool) (now : Z)
    (cache : gmap string cache_entry) (map_filename : string) : Prop :=
  force_api = true \/ cache !! map_filename = None
  \/ exists c, cache !! map_filename = Some c
               /\ map_invalidation_hours * 3600 < now - ce_time c.

(** Non-forced calls for the same map made one after the other, each with its
    own clock reading and remote behaviour. *)
Fixpoint resolve_each (calls : list (env * Q)) (map_filename : string)
    (w : world) : list (result (string * string)) * world :=
  match calls with
  | [] => ([], w)
  | (e, timeout) :: calls' =>
      let '(r, w1) :=
        find_custom_map_gamemode common_custom map_invalidation_hours
          get_api_key e map_filename false timeout w in
      let '(rs, w2) := resolve_each calls' map_filename w1 in
      (r :: rs, w2)
  end.

End Calls.

(** *** Concrete calls *)

Definition example_key (service : string) : string :=
  "0123456789abcdef0123456789abcdef".

(** A world whose cache is empty and in which nothing has happened yet. *)
Definition fresh : world := World (Document ∅ []) [].

(** A world whose cache holds one entry. *)
Definition holding (map_filename : string) (c : cache_entry) : world :=
  World (Document {[ map_filename := c ]} []) [].

Definition always (f : fetched) : string -> Q -> fetched := fun _ _ => f.

End CustomMapsSpec.

(** * Vocabulary of the statements about main.py *)

Module MainSpec.
Import Main.

Definition is_class_config (ef : effect) : bool :=
  match ef with ClassConfigFiles _ => true | _ => false end.
Definition is_disconnect (ef : effect) : bool :=
  match ef with IpcDisconnect => true | _ => false end.

(** How often [configs.class_config_files] and [rpc_client.disconnect] have
    been called. *)
Definition class_config_runs (s : session) : nat :=
  length (List.filter is_class_config (effects s)).
Definition disconnects (s : session) : nat :=
  length (List.filter is_disconnect (effects s)).

(** The part of the session the statements below are about. *)
Definition view (s : session)
  : option DiscordIPC * bool * string * bool * bool * nat * nat :=
  (rpc_client s, client_connected s, test_state s, slow_sleep_time s,
   has_checked_class_configs s, class_config_runs s, disconnects s).

(** Custom code that leaves that part alone. *)
Definition unobtrusive (h : session -> session) : Prop :=
  forall s, view (h s) = view s.

Definition well_behaved (custom_functions : option TF2RPCustom) : Prop :=
  forall c, custom_functions = Some c ->
    unobtrusive (before_loop c) /\ unobtrusive (loop_middle c)
    /\ unobtrusive (after_loop c).

(** [client_connected] is only ever set after a client has been made. *)
Definition has_client_when_connected (s : session) : Prop :=
  client_connected s = true -> rpc_client s <> None.

(** The exception, if any, that [connect()] or [update_activity()] raises
    when [send_rpc_activity] runs in session [s]: [connect()] is called only
    when the session is not connected, and [update_activity()] only when
    [connect()] did not raise. *)
Definition ipc_failure (i : tick_input) (s : session) : option py_exc :=
  if client_connected s then ipc_update i
  else
    match ipc_connect i with
    | Some e => Some e
    | None => ipc_update i
    end.

(** The state name the design gives for the first missing program. *)
Definition first_missing (p : scan_result) : string :=
  if negb (running (TF2 p)) then "no tf2"
  else if negb (running (Discord p)) then "no discord"
  else "no steam".

(** The guard flag of the class-config step with the number of times the
    step has run. *)
Definition guard (s : session) : bool * nat :=
  (has_checked_class_configs s, class_config_runs s).

(** From [s] to [s'] the step has run at most once, and not at all if the
    flag was set in [s]; the flag is set by a run and never cleared. *)
Definition at_most_once (s s' : session) : Prop :=
  (has_checked_class_configs s = true ->
   has_checked_class_configs s' = true
   /\ class_config_runs s' = class_config_runs s)
  /\ (has_checked_class_configs s = false ->
      (has_checked_class_configs s' = false
       /\ class_config_runs s' = class_config_runs s)
      \/ (has_checked_class_configs s' = true
          /\ class_config_runs s' = S (class_config_runs s))).

Definition same_guard (s s' : session) : Prop := guard s' = guard s.

(** [m] takes every session to one related to it by [R], however it ends. *)
Definition keeps {A : Type} (R : session -> session -> Prop) (m : action A)
  : Prop :=
  forall s, R s (final (m s)).

Section Parts.

Variable custom_functions : option TF2RPCustom.
Variable get_api_key : string -> string.

(** The [if]/[elif] chain in the middle of [loop_body]. *)
Definition branch (i : tick_input) : action unit :=
  let p_data := scan i in
  if running (TF2 p_data) && running (Discord p_data)
     && running (Steam p_data)
  then all_running custom_functions get_api_key i
  else if negb (running (TF2 p_data)) then
    necessary_program_not_running "Team Fortress 2" "TF2" ;;
    assign (set_should_mention_tf2 false)
  else if negb (running (Discord p_data)) then
    necessary_program_not_running "Discord" "" ;;
    assign (set_should_mention_discord false)
  else
    necessary_program_not_running "Steam" "" ;;
    assign (set_should_mention_steam false).

(** What [loop_body] does after that chain. *)
Definition epilogue : action (bool * option DiscordIPC) :=
  custom custom_functions after_loop ;;
  init_operations ;;
  warn <- read no_condebug ;;
  when warn (assign (set_fast_next_loop true)) ;;
  lowered <- read has_set_process_priority ;;
  when (negb lowered)
    (assign (add_effect LowerPriority) ;;
     assign (set_has_set_process_priority true)) ;;
  cc <- read client_connected ;;
  rc <- read rpc_client ;;
  ret (cc, rc).

End Parts.

(** *** Concrete passes *)

Definition discord_key (service : string) : string := "429389143756374017".

Definition up : process_info :=
  ProcessInfo true (Some 4242) (Some "C:\Steam\steamapps\common\Team Fortress 2")
    (Some 1600000000).
Definition down : process_info := ProcessInfo false None None None.

(** A pass with everything running, the game in its menus and an update
    due, during which Discord accepts the connection and the update. *)
Definition playing : tick_input :=
  Tick true (Scan up up up) (fun _ => 0) None true true
    [("details", "In menus"); ("state", "Not queued")] None None.

(** A pass during which TF2 has stopped. *)
Definition stopped : tick_input :=
  Tick true (Scan down up up) (fun _ => 0) None true false [] None None.

(** A pass during which none of the three programs is running. *)
Definition all_absent : tick_input :=
  Tick true (Scan down down down) (fun _ => 0) None true false [] None None.

(** A pass during which Discord is still starting up. *)
Definition discord_starting : tick_input :=
  Tick true (Scan up up up) (fun _ => 0) None true true
    [("details", "In menus")]
    (Some (PyExc (OtherException "ConnectionError")
             "Can't connect to Discord Client.")) None.

(** Custom code that adjusts the activity before it is sent. *)
Definition tweak : TF2RPCustom :=
  Custom (fun s => s) (set_activity [("details", "Custom")]) (fun s => s).

(** A session that has published before. *)
Definition online : session :=
  set_client_connected true
    (set_rpc_client (Some (Client "429389143756374017" true)) (init true)).

End MainSpec.

(** * Scenarios of the further statements about custom_maps.py and tests.py *)

Module ExtraScenarios.
Import CustomMaps CustomMapsSpec.

(** An answer that lists one known gamemode. *)
Definition control_point : fetched :=
  Body (JObj [("all_gamemodes", JArr [JStr "control-point"])]).

(** A cache that holds an entry for another map. *)
Definition with_badwater : world :=
  holding "pl_badwater_pro" (CacheEntry "payload" "Payload" 1500000000).

(** The activity the main-loop test compares against. *)
Definition in_menus_activity : list (string * json) :=
  [("details", JStr "In menus");
   ("timestamps", JObj [("start", JNum 1600000000)]);
   ("assets", JObj [("small_image", JStr "tf2_icon_small");
                    ("large_image", JStr "main_menu")]);
   ("state", JStr "")].

End ExtraScenarios.

(** * Vocabulary of the further statements about main.py *)

Module MainExtraSpec.
Import Main MainSpec.

Definition is_connect (ef : effect) : bool :=
  match ef with IpcConnect _ => true | _ => false end.
Definition is_update (ef : effect) : bool :=
  match ef with IpcUpdateActivity _ => true | _ => false end.
Definition is_init_operations (ef : effect) : bool :=
  match ef with InitOperations => true | _ => false end.
Definition is_lower_priority (ef : effect) : bool :=
  match ef with LowerPriority => true | _ => false end.

(** How often [rpc_client.connect], [rpc_client.update_activity], the init
    operations and the lowering of the process priority have happened. *)
Definition connects (s : session) : nat :=
  length (List.filter is_connect (effects s)).
Definition updates (s : session) : nat :=
  length (List.filter is_update (effects s)).
Definition init_runs (s : session) : nat :=
  length (List.filter is_init_operations (effects s)).
Definition priority_runs (s : session) : nat :=
  length (List.filter is_lower_priority (effects s)).

(** [s'] shows the same [obs] as [s]. *)
Definition same {X : Type} (obs : session -> X) (s s' : session) : Prop :=
  obs s' = obs s.

(** A step guarded by [flag] and counted by [count] has, from [s] to [s'],
    run at most once, and not at all if the flag was set in [s]; the flag
    is set when the step runs and is never cleared. *)
Definition one_shot (flag : session -> bool) (count : session -> nat)
    (s s' : session) : Prop :=
  (flag s = true -> flag s' = true /\ count s' = count s)
  /\ (flag s = false ->
      (flag s' = false /\ count s' = count s)
      \/ (flag s' = true /\ count s' = S (count s))).

(** The set of user names only grows. *)
Definition names_grow (s s' : session) : Prop :=
  valid_usernames s ⊆ valid_usernames s'.

(** [disconnect()] has been called no more often than [connect()], with
    one connection to spare while the session is connected. *)
Definition connections_balance (s : session) : Prop :=
  (disconnects s + (if client_connected s then 1 else 0) <= connects s)%nat.

(** [inv] is not lost from [s] to [s']. *)
Definition preserves (inv : session -> Prop) (s s' : session) : Prop :=
  inv s -> inv s'.

(** Custom code whose methods take every session to one related by [R]. *)
Definition hooks_keep (custom_functions : option TF2RPCustom)
    (R : session -> session -> Prop) : Prop :=
  forall c, custom_functions = Some c ->
    forall s, R s (before_loop c s) /\ R s (loop_middle c s)
              /\ R s (after_loop c s).

(** The state a pass leaves, from what the scan and the log say. *)
Definition state_after (i : tick_input) : string :=
  if running (TF2 (scan i)) && running (Discord (scan i))
     && running (Steam (scan i))
  then if in_menus i then "menus" else "in game"
  else first_missing (scan i).

(** The state name and the slow-sleep flag. *)
Definition shown (s : session) : string * bool :=
  (test_state s, slow_sleep_time s).

(** [m], if it completes, ends in a session with [P]. *)
Definition ends_with {A : Type} (P : session -> Prop) (m : action A) : Prop :=
  forall s a s', m s = Done a s' -> P s'.

(** The guard of the init operations with the number of times they ran, and
    the same for the lowering of the priority. *)
Definition init_guard (s : session) : bool * nat :=
  (did_init_operations s, init_runs s).
Definition priority_guard (s : session) : bool * nat :=
  (has_set_process_priority s, priority_runs s).

(** The connected flag with the numbers of disconnections and
    connections. *)
Definition connection_counts (s : session) : bool * nat * nat :=
  (client_connected s, disconnects s, connects s).

(** [e] was raised by [connect()] or [update_activity()] during the pass
    and its message is not one of the two that are let pass. *)
Definition raised_by_discord (i : tick_input) (e : py_exc) : Prop :=
  (ipc_connect i = Some e \/ ipc_update i = Some e)
  /\ exc_str e ≠ "Can't send data to Discord via IPC."
  /\ exc_str e ≠ "Can't connect to Discord Client.".

(** *** Further concrete passes *)

(** A pass during which Steam's config files name a user with
    [-condebug]. *)
Definition logged_in : tick_input :=
  Tick true (Scan up up up) (fun _ => 0) (Some {["kataiser"]}) true true
    [("details", "In menus")] None None.

(** A pass during which Discord refuses the update for a reason of its
    own. *)
Definition discord_broken : tick_input :=
  Tick true (Scan up up up) (fun _ => 0) None true true
    [("details", "In menus")] None
    (Some (PyExc (OtherException "InvalidID") "Client ID is invalid.")).

(** A pass that finds the GUI closed. *)
Definition gui_closed : tick_input :=
  Tick false (Scan up up up) (fun _ => 0) None true true
    [("details", "In menus")] None None.

(** A session that has seen a user name. *)
Definition known_user : session :=
  set_valid_usernames {["kataiser"]} (init true).

End MainExtraSpec.

(** * Properties of custom_maps.py *)

Module CustomMapsProps.
Import CustomMaps CustomMapsSpec.

Section Facts.

Variable common_custom : gmap string (string * string).
Variable map_invalidation_hours : Z.
Variable get_api_key : string -> string.

Abbreviation resolve :=
  (find_custom_map_gamemode common_custom map_invalidation_hours get_api_key).
Abbreviation url := (api_url get_api_key).
Abbreviation ttl := (map_invalidation_hours * 3600).
Abbreviation cached_answer := (look_in_cache map_invalidation_hours).
Abbreviation ask := (ask_api get_api_key).
Abbreviation repeated :=
  (resolve_each common_custom map_invalidation_hours get_api_key).
Abbreviation bypassed := (not_cached map_invalidation_hours).

(** *** The cache accessor *)

Lemma read_cache (w : world) :
  access_custom_maps_cache None w = (Some (custom_maps (db w)), record DbRead w).
Proof. reflexivity. Qed.

Lemma write_cache (m : gmap string cache_entry) (w : world) :
  m ≠ ∅ ->
  access_custom_maps_cache (Some m) w
  = (None, access_db_write
             {| custom_maps := m; other_sections := other_sections (db w) |}
             (record DbRead w)).
Proof.
  intros Hm. unfold access_custom_maps_cache, truthy.
  rewrite bool_decide_false by exact Hm. reflexivity.
Qed.

Lemma cache_and_return_eq (cache : gmap string cache_entry)
    (map_filename : string) (now : Z) (found : string * string) (w : world) :
  cache_and_return cache map_filename now found w
  = (Return found,
     access_db_write
       {| custom_maps :=
            <[map_filename := CacheEntry (fst found) (snd found) now]> cache;
          other_sections := other_sections (db w) |}
       (record DbRead w)).
Proof.
  unfold cache_and_return. rewrite write_cache; [reflexivity |].
  apply insert_non_empty.
Qed.

(** *** The cache lookup *)

Lemma cached_answer_None (force_api : bool) (now : Z)
    (cache : gmap string cache_entry) (map_filename : string) :
  cached_answer force_api now cache map_filename = None <->
  force_api = true \/ cache !! map_filename = None
  \/ exists c, cache !! map_filename = Some c /\ ttl < now - ce_time c.
Proof.
  unfold look_in_cache. destruct force_api; [intuition |].
  destruct (cache !! map_filename) as [c|] eqn:Hc; [| intuition].
  case_bool_decide as Hage; split.
  - discriminate.
  - intros [Hf | [Hn | (c' & Hc' & Hlt)]]; try discriminate.
    injection Hc' as <-. lia.
  - intros _. right; right. exists c. split; [reflexivity | lia].
  - reflexivity.
Qed.

Lemma cached_answer_later (force_api : bool) (now now' : Z)
    (cache : gmap string cache_entry) (map_filename : string) :
  cached_answer force_api now cache map_filename = None ->
  now <= now' ->
  cached_answer force_api now' cache map_filename = None.
Proof.
  rewrite !cached_answer_None.
  intros [Hf | [Hn | (c & Hc & Hlt)]] Hle; [tauto | tauto |].
  right; right. exists c. split; [exact Hc | lia].
Qed.

(** *** Shape of a resolution that gets past the blank-name guard and the
    static table *)

Lemma resolve_custom (e : env) (map_filename : string) (force_api : bool)
    (timeout : Q) (w : world) :
  map_filename ≠ "" ->
  common_custom !! map_filename = None ->
  resolve e map_filename force_api timeout w
  = match cached_answer force_api (time_now e) (custom_maps (db w))
            map_filename with
    | Some cached => (Return cached, record DbRead w)
    | None =>
        ask e (custom_maps (db w)) map_filename timeout (record DbRead w)
    end.
Proof.
  intros Hne Hstatic. unfold find_custom_map_gamemode.
  rewrite bool_decide_false by exact Hne. rewrite Hstatic, read_cache.
  reflexivity.
Qed.

(** *** What a request does to the world *)

Lemma first_gamemode_none (tags : list string) :
  Forall (fun t => gamemodes !! t = None) tags ->
  first_gamemode (map JStr tags) = Return None.
Proof.
  induction 1 as [| t tags Ht _ IH]; [reflexivity |].
  cbn [map first_gamemode]. rewrite Ht. exact IH.
Qed.

Lemma first_gamemode_first (pre post : list string) (g fancy : string) :
  Forall (fun t => gamemodes !! t = None) pre ->
  gamemodes !! g = Some fancy ->
  first_gamemode (map JStr (pre ++ g :: post)) = Return (Some (g, fancy)).
Proof.
  intros Hpre Hg. induction Hpre as [| t pre Ht _ IH].
  - cbn [app map first_gamemode]. rewrite Hg. reflexivity.
  - cbn [app map first_gamemode]. rewrite Ht. exact IH.
Qed.

Lemma parse_unresolvable (cache : gmap string cache_entry)
    (map_filename : string) (now : Z) (map_info : json) (w : world) :
  unresolvable map_info ->
  parse_api_result cache map_filename now map_info w
  = cache_and_return cache map_filename now unknown w.
Proof.
  intros [o Ho | o tags Ho Htags]; unfold parse_api_result, all_gamemodes;
    rewrite Ho; cbn [exc_kind iterate]; [reflexivity |].
  rewrite first_gamemode_none by exact Htags. reflexivity.
Qed.

Lemma parse_http_calls (cache : gmap string cache_entry)
    (map_filename : string) (now : Z) (map_info : json) (w : world) :
  http_calls (snd (parse_api_result cache map_filename now map_info w))
  = http_calls w.
Proof.
  unfold parse_api_result.
  destruct (all_gamemodes map_info) as [v | ex].
  - destruct (iterate v) as [tags | ex]; [| reflexivity].
    destruct (first_gamemode tags) as [[found |] | ex];
      rewrite ?cache_and_return_eq; reflexivity.
  - destruct (exc_kind ex); rewrite ?cache_and_return_eq; reflexivity.
Qed.

Lemma ask_http_calls (e : env) (cache : gmap string cache_entry)
    (map_filename : string) (timeout : Q) (w : world) :
  http_calls (snd (ask e cache map_filename timeout w)) = S (http_calls w).
Proof.
  unfold ask_api.
  destruct (requests_get e (url map_filename) timeout) as [map_info | ex].
  - rewrite parse_http_calls. reflexivity.
  - destruct (exc_kind ex); reflexivity.
Qed.

(** A request that raises, whatever the exception, gives the fallback pair
    and adds nothing but the request itself to the world. *)
Lemma ask_throws (e : env) (cache : gmap string cache_entry)
    (map_filename : string) (timeout : Q) (w : world) (ex : py_exc) :
  requests_get e (url map_filename) timeout = Throws ex ->
  ask e cache map_filename timeout w
  = (Return unknown, record (HttpGet (url map_filename) timeout) w).
Proof.
  intros Hget. unfold ask_api. rewrite Hget.
  destruct (exc_kind ex); reflexivity.
Qed.

Lemma failed_request (e : env) (map_filename : string) (force_api : bool)
    (timeout : Q) (w : world) (ex : py_exc) :
  map_filename ≠ "" ->
  common_custom !! map_filename = None ->
  cached_answer force_api (time_now e) (custom_maps (db w)) map_filename = None ->
  requests_get e (url map_filename) timeout = Throws ex ->
  resolve e map_filename force_api timeout w
  = (Return unknown,
     record (HttpGet (url map_filename) timeout) (record DbRead w)).
Proof.
  intros Hne Hstatic Hmiss Hget.
  rewrite resolve_custom, Hmiss by assumption.
  apply ask_throws with ex. exact Hget.
Qed.

Lemma retried_later (e e' : env) (map_filename : string) (force_api : bool)
    (timeout' : Q) (w w' : world) :
  map_filename ≠ "" ->
  common_custom !! map_filename = None ->
  cached_answer force_api (time_now e) (custom_maps (db w)) map_filename = None ->
  db w' = db w ->
  time_now e <= time_now e' ->
  http_calls (snd (resolve e' map_filename force_api timeout' w'))
  = S (http_calls w').
Proof.
  intros Hne Hstatic Hmiss Hdb Hle.
  rewrite resolve_custom by assumption. rewrite Hdb.
  rewrite (cached_answer_later _ _ _ _ _ Hmiss Hle).
  rewrite ask_http_calls. reflexivity.
Qed.

(** *** The claims *)

(** C5.  A call for a map name found in the static table, whatever
    [force_api] is, leaves the world as it was: the cache is neither read
    nor written and no request is sent.  It returns the value the table
    holds for the name (for a name that is not blank; a blank name is turned
    away before the table is consulted). *)
Theorem static_table_first (e : env) (map_filename : string)
    (force_api : bool) (timeout : Q) (w : world) (gamemode : string * string) :
  common_custom !! map_filename = Some gamemode ->
  snd (resolve e map_filename force_api timeout w) = w
  /\ (map_filename ≠ "" ->
      resolve e map_filename force_api timeout w = (Return gamemode, w)).
Proof.
  intros Hstatic. unfold find_custom_map_gamemode. rewrite Hstatic.
  case_bool_decide as Hblank; split; try reflexivity.
  intros Hne. contradiction.
Qed.

(** C2.  For a map name outside the static table and a call that is not
    forced.  A cached entry whose age is at most the TTL (the boundary
    included) settles the call without a request, and (for a name that is
    not blank) the call returns the cached pair after one read of the cache.
    A request is sent only if the entry is missing or its age is strictly
    greater than the TTL, and (for a name that is not blank) it is sent in
    each of these cases. *)
Theorem cache_entry_valid_up_to_ttl (e : env) (map_filename : string)
    (timeout : Q) (w : world) :
  common_custom !! map_filename = None ->
  let out := resolve e map_filename false timeout w in
  let stale :=
    custom_maps (db w) !! map_filename = None
    \/ exists cached,
         custom_maps (db w) !! map_filename = Some cached
         /\ ttl < time_now e - ce_time cached in
  (forall cached,
      custom_maps (db w) !! map_filename = Some cached ->
      time_now e - ce_time cached <= ttl ->
      http_calls (snd out) = http_calls w
      /\ (map_filename ≠ "" ->
          out = (Return (ce_gamemode cached, ce_fancy cached),
                 record DbRead w)))
  /\ (http_calls (snd out) ≠ http_calls w -> stale)
  /\ (map_filename ≠ "" -> stale -> http_calls (snd out) = S (http_calls w)).
Proof.
  intros Hstatic out stale. subst out stale.
  destruct (decide (map_filename = "")) as [-> | Hne].
  { cbn. repeat split; intros; contradiction. }
  rewrite resolve_custom by assumption.
  destruct (cached_answer false (time_now e) (custom_maps (db w))
              map_filename) as [hit |] eqn:Hlook.
  - change (http_calls (snd (Return hit, record DbRead w)))
      with (http_calls w).
    split; [| split].
    + intros cached Hc Hage. split; [reflexivity | intros _].
      unfold look_in_cache in Hlook. rewrite Hc in Hlook.
      rewrite bool_decide_true in Hlook by exact Hage.
      injection Hlook as <-. reflexivity.
    + intros Hcalls. contradiction.
    + intros _ Hstale.
      assert (cached_answer false (time_now e) (custom_maps (db w))
                map_filename = None) as Hnone.
      { apply cached_answer_None. right. exact Hstale. }
      congruence.
  - rewrite ask_http_calls.
    apply cached_answer_None in Hlook.
    destruct Hlook as [Hf | Hstale]; [discriminate |].
    split; [| split].
    + intros cached Hc Hage. exfalso.
      destruct Hstale as [Hn | (c & Hc' & Hlt)]; [congruence |].
      rewrite Hc in Hc'. injection Hc' as <-. lia.
    + intros _. exact Hstale.
    + intros _ _. reflexivity.
Qed.

(** C3.  When the request succeeds and the decoded body lists, under
    ['all_gamemodes'], tags of which [g] is the first that is a key of the
    translation table, the call returns [g] with its fancy name and the
    persisted cache becomes the one read, with the entry
    [[g, fancy, now]] stored under the map name. *)
Theorem first_matching_tag_cached (e : env) (map_filename : string)
    (force_api : bool) (timeout : Q) (w : world)
    (o : list (string * json)) (pre post : list string) (g fancy : string) :
  map_filename ≠ "" ->
  common_custom !! map_filename = None ->
  bypassed force_api (time_now e) (custom_maps (db w)) map_filename ->
  requests_get e (url map_filename) timeout = Body (JObj o) ->
  dict_get "all_gamemodes" o = Some (JArr (map JStr (pre ++ g :: post))) ->
  Forall (fun t => gamemodes !! t = None) pre ->
  gamemodes !! g = Some fancy ->
  let out := resolve e map_filename force_api timeout w in
  fst out = Return (g, fancy)
  /\ custom_maps (db (snd out))
     = <[map_filename := CacheEntry g fancy (time_now e)]> (custom_maps (db w))
  /\ custom_maps (db (snd out)) !! map_filename
     = Some (CacheEntry g fancy (time_now e))
  /\ http_calls (snd out) = S (http_calls w).
Proof.
  intros Hne Hstatic Hmiss Hget Hlist Hpre Hg out. subst out.
  apply cached_answer_None in Hmiss.
  rewrite resolve_custom, Hmiss by assumption.
  unfold ask_api. rewrite Hget.
  unfold parse_api_result, all_gamemodes. rewrite Hlist. cbn [iterate].
  rewrite (first_gamemode_first _ _ _ _ Hpre Hg), cache_and_return_eq.
  cbn. rewrite lookup_insert_eq. repeat split; reflexivity.
Qed.

(** C4.  For a non-blank map name outside the static table whose request is
    answered by an unresolvable response: the call returns the fallback
    pair, stores it under the map name with the current time and has sent
    one request; and any number of further non-forced calls for that map,
    each made while the entry is at most the TTL old, return the fallback
    pair without sending a request. *)
Theorem unresolvable_asked_once (e : env) (map_filename : string)
    (force_api : bool) (timeout : Q) (w : world) (map_info : json)
    (later : list (env * Q)) :
  map_filename ≠ "" ->
  common_custom !! map_filename = None ->
  bypassed force_api (time_now e) (custom_maps (db w)) map_filename ->
  requests_get e (url map_filename) timeout = Body map_info ->
  unresolvable map_info ->
  Forall (fun call => time_now (fst call) - time_now e <= ttl) later ->
  let first := resolve e map_filename force_api timeout w in
  let rest := repeated later map_filename (snd first) in
  fst first = Return unknown
  /\ custom_maps (db (snd first)) !! map_filename
     = Some (CacheEntry "unknown_map" "Unknown gamemode" (time_now e))
  /\ http_calls (snd first) = S (http_calls w)
  /\ fst rest = List.repeat (Return unknown) (length later)
  /\ http_calls (snd rest) = http_calls (snd first).
Proof.
  intros Hne Hstatic Hmiss Hget Hun Hlater first rest.
  apply cached_answer_None in Hmiss.
  assert (fst first = Return unknown
          /\ custom_maps (db (snd first)) !! map_filename
             = Some (CacheEntry "unknown_map" "Unknown gamemode" (time_now e))
          /\ http_calls (snd first) = S (http_calls w)) as (H1 & H2 & H3).
  { subst first. rewrite resolve_custom, Hmiss by assumption.
    unfold ask_api. rewrite Hget, parse_unresolvable by exact Hun.
    rewrite cache_and_return_eq. cbn. rewrite lookup_insert_eq.
    repeat split; reflexivity. }
  repeat split; try assumption; subst rest; clear H1 H3;
    generalize dependent (snd first); clear first;
    induction Hlater as [| [e' timeout'] later Hage _ IH]; intros w1 Hentry;
    try reflexivity.
  - cbn [resolve_each length List.repeat].
    rewrite resolve_custom by assumption.
    unfold look_in_cache. rewrite Hentry. cbn [ce_time fst] in *.
    rewrite bool_decide_true by exact Hage.
    specialize (IH (record DbRead w1) Hentry).
    destruct (repeated later map_filename (record DbRead w1)) as [rs w2].
    cbn in *. rewrite IH. reflexivity.
  - cbn [resolve_each].
    rewrite resolve_custom by assumption.
    unfold look_in_cache. rewrite Hentry. cbn [ce_time fst] in *.
    rewrite bool_decide_true by exact Hage.
    specialize (IH (record DbRead w1) Hentry).
    destruct (repeated later map_filename (record DbRead w1)) as [rs w2].
    cbn in *. exact IH.
Qed.

(** C6.  When the request raises a connect or read timeout, the call
    returns the fallback pair and the persisted document is what it was, no
    write having been made; a later call for the same map, forced or not as
    this one was, sends a request again. *)
Theorem timeout_leaves_cache_alone (e : env) (map_filename : string)
    (force_api : bool) (timeout : Q) (w : world) (ex : py_exc) :
  map_filename ≠ "" ->
  common_custom !! map_filename = None ->
  bypassed force_api (time_now e) (custom_maps (db w)) map_filename ->
  requests_get e (url map_filename) timeout = Throws ex ->
  exc_kind ex = ConnectTimeout \/ exc_kind ex = ReadTimeout ->
  let out := resolve e map_filename force_api timeout w in
  fst out = Return unknown
  /\ db (snd out) = db w
  /\ db_writes (snd out) = db_writes w
  /\ forall e' timeout',
       time_now e <= time_now e' ->
       http_calls (snd (resolve e' map_filename force_api timeout' (snd out)))
       = S (http_calls (snd out)).
Proof.
  intros Hne Hstatic Hmiss Hget _ out. subst out.
  apply cached_answer_None in Hmiss.
  rewrite (failed_request _ _ _ _ _ _ Hne Hstatic Hmiss Hget).
  repeat split; try reflexivity.
  intros e' timeout' Hle.
  apply retried_later with (e := e) (w := w); try assumption. reflexivity.
Qed.

(** C1, as the code has it.  When the request, or the decoding of its body,
    raises an exception that is neither a connect nor a read timeout, the
    call returns the fallback pair and does not write the cache: the
    persisted document is what it was, and a later call for the same map,
    forced or not as this one was, sends a request again. *)
Theorem other_failure_leaves_cache_alone (e : env) (map_filename : string)
    (force_api : bool) (timeout : Q) (w : world) (ex : py_exc) :
  map_filename ≠ "" ->
  common_custom !! map_filename = None ->
  bypassed force_api (time_now e) (custom_maps (db w)) map_filename ->
  requests_get e (url map_filename) timeout = Throws ex ->
  exc_kind ex ≠ ConnectTimeout ->
  exc_kind ex ≠ ReadTimeout ->
  let out := resolve e map_filename force_api timeout w in
  fst out = Return unknown
  /\ db (snd out) = db w
  /\ db_writes (snd out) = db_writes w
  /\ forall e' timeout',
       time_now e <= time_now e' ->
       http_calls (snd (resolve e' map_filename force_api timeout' (snd out)))
       = S (http_calls (snd out)).
Proof.
  intros Hne Hstatic Hmiss Hget _ _ out. subst out.
  apply cached_answer_None in Hmiss.
  rewrite (failed_request _ _ _ _ _ _ Hne Hstatic Hmiss Hget).
  repeat split; try reflexivity.
  intros e' timeout' Hle.
  apply retried_later with (e := e) (w := w); try assumption. reflexivity.
Qed.

End Facts.

(** C10.  Handing the accessor an empty dict is a read: it returns the
    persisted cache and the document is what it was, with no write made.
    More generally, whatever the argument, the accessor either leaves the
    document alone or stores a non-empty cache in it. *)
Theorem empty_dict_is_a_read (w : world) :
  access_custom_maps_cache (Some ∅) w
  = (Some (custom_maps (db w)), record DbRead w)
  /\ db (snd (access_custom_maps_cache (Some ∅) w)) = db w
  /\ db_reads (snd (access_custom_maps_cache (Some ∅) w)) = S (db_reads w)
  /\ db_writes (snd (access_custom_maps_cache (Some ∅) w)) = db_writes w
  /\ forall dict_input w0,
       db (snd (access_custom_maps_cache dict_input w0)) = db w0
       \/ custom_maps (db (snd (access_custom_maps_cache dict_input w0))) ≠ ∅.
Proof.
  repeat split.
  intros [m |] w0; [| left; reflexivity].
  destruct (decide (m = ∅)) as [-> | Hm]; [left; reflexivity |].
  right. rewrite write_cache by exact Hm. exact Hm.
Qed.

(** *** The claims on concrete calls *)

Lemma static_table_first_witness :
  find_custom_map_gamemode
    {[ "koth_wubwubwub_remix_vip" := ("koth", "King of the Hill") ]}
    24 example_key (Env 1600000000 (always (Body JNull)))
    "koth_wubwubwub_remix_vip" true 5 fresh
  = (Return ("koth", "King of the Hill"), fresh).
Proof.
  apply static_table_first; [vm_compute; reflexivity | discriminate].
Defined.

Lemma cache_entry_valid_up_to_ttl_witness :
  let w := holding "cp_catwalk_a5c"
             (CacheEntry "control-point" "Control Point" 1600000000) in
  find_custom_map_gamemode ∅ 24 example_key
    (Env (1600000000 + 24 * 3600) (always (Body JNull)))
    "cp_catwalk_a5c" false 5 w
  = (Return ("control-point", "Control Point"), record DbRead w).
Proof.
  intros w.
  destruct (cache_entry_valid_up_to_ttl ∅ 24 example_key
              (Env (1600000000 + 24 * 3600) (always (Body JNull)))
              "cp_catwalk_a5c" 5 w) as [Hvalid _];
    [vm_compute; reflexivity |].
  destruct (Hvalid (CacheEntry "control-point" "Control Point" 1600000000))
    as [_ Hhit]; [vm_compute; reflexivity | vm_compute; discriminate |].
  apply Hhit. discriminate.
Defined.

Lemma first_matching_tag_cached_witness :
  let e := Env 1600000000
             (always (Body (JObj [("all_gamemodes",
                                   JArr [JStr "control-point";
                                         JStr "other-tag"])]))) in
  let out := find_custom_map_gamemode ∅ 24 example_key e
               "cp_catwalk_a5c" false 5 fresh in
  fst out = Return ("control-point", "Control Point")
  /\ custom_maps (db (snd out)) !! "cp_catwalk_a5c"
     = Some (CacheEntry "control-point" "Control Point" 1600000000).
Proof.
  intros e out.
  destruct (first_matching_tag_cached ∅ 24 example_key e "cp_catwalk_a5c"
              false 5 fresh
              [("all_gamemodes", JArr [JStr "control-point"; JStr "other-tag"])]
              [] ["other-tag"] "control-point" "Control Point")
    as (Hret & _ & Hentry & _);
    [discriminate | vm_compute; reflexivity | right; left; reflexivity
    | reflexivity | reflexivity | constructor | vm_compute; reflexivity |].
  split; assumption.
Defined.

Lemma unresolvable_asked_once_witness :
  let answer := Body (JObj [("all_gamemodes", JArr [JStr "not-a-gamemode"])]) in
  let e := Env 1600000000 (always answer) in
  let first := find_custom_map_gamemode ∅ 24 example_key e
                 "ytsb8eitybw" false 5 fresh in
  let rest := resolve_each ∅ 24 example_key
                [(Env 1600000000 (always answer), 5%Q);
                 (Env (1600000000 + 24 * 3600) (always answer), 5%Q)]
                "ytsb8eitybw" (snd first) in
  fst first = Return unknown
  /\ http_calls (snd first) = 1%nat
  /\ fst rest = [Return unknown; Return unknown]
  /\ http_calls (snd rest) = 1%nat.
Proof.
  intros answer e first rest.
  destruct (unresolvable_asked_once ∅ 24 example_key e "ytsb8eitybw" false 5
              fresh (JObj [("all_gamemodes", JArr [JStr "not-a-gamemode"])])
              [(Env 1600000000 (always answer), 5%Q);
               (Env (1600000000 + 24 * 3600) (always answer), 5%Q)])
    as (Hret & _ & Hcalls & Hrest & Hcalls');
    [discriminate | vm_compute; reflexivity | right; left; reflexivity
    | reflexivity
    | apply (no_known_tag _ ["not-a-gamemode"]);
        [reflexivity | repeat constructor]
    | repeat constructor; vm_compute; discriminate |].
  repeat split; assumption.
Defined.

Lemma timeout_leaves_cache_alone_witness :
  let e := Env 1600000000
             (always (Throws (PyExc ReadTimeout "Read timed out."))) in
  let out := find_custom_map_gamemode ∅ 24 example_key e
               "cp_catwalk_a5c" false 5 fresh in
  fst out = Return unknown /\ db (snd out) = db fresh.
Proof.
  intros e out.
  destruct (timeout_leaves_cache_alone ∅ 24 example_key e "cp_catwalk_a5c"
              false 5 fresh (PyExc ReadTimeout "Read timed out."))
    as (Hret & Hdb & _);
    [discriminate | vm_compute; reflexivity | right; left; reflexivity
    | reflexivity | right; reflexivity |].
  split; assumption.
Defined.

Lemma other_failure_leaves_cache_alone_witness :
  let e := Env 1600000000
             (always (Throws (PyExc (OtherException "ConnectionError")
                                "Connection refused"))) in
  let out := find_custom_map_gamemode ∅ 24 example_key e
               "ytsb8eitybw" false 5 fresh in
  fst out = Return unknown /\ db (snd out) = db fresh.
Proof.
  intros e out.
  destruct (other_failure_leaves_cache_alone ∅ 24 example_key e "ytsb8eitybw"
              false 5 fresh
              (PyExc (OtherException "ConnectionError") "Connection refused"))
    as (Hret & Hdb & _);
    [discriminate | vm_compute; reflexivity | right; left; reflexivity
    | reflexivity | discriminate | discriminate |].
  split; assumption.
Defined.

(** One second past the boundary the entry no longer counts and a request
    is sent. *)
Example one_second_past_the_ttl :
  let w := holding "cp_catwalk_a5c"
             (CacheEntry "control-point" "Control Point" 1600000000) in
  http_calls
    (snd (find_custom_map_gamemode ∅ 24 example_key
            (Env (1600000000 + 24 * 3600 + 1) (always (Body JNull)))
            "cp_catwalk_a5c" false 5 w))
  = 1%nat.
Proof. vm_compute. reflexivity. Qed.

(** A blank name is answered with the fallback pair at once. *)
Example blank_name (e : env) (force_api : bool) (timeout : Q) (w : world) :
  find_custom_map_gamemode ∅ 24 example_key e "" force_api timeout w
  = (Return unknown, w).
Proof. reflexivity. Qed.

(** C1, as stated, fails.  The request for ["ytsb8eitybw"] is refused by the
    network (a [ConnectionError], not a timeout).  The call returns the
    fallback pair, but no entry is stored for the map, and the same call
    made again at once sends a second request. *)
Lemma connection_error_is_not_cached :
  let e := Env 1600000000
             (always (Throws (PyExc (OtherException "ConnectionError")
                                "Connection refused"))) in
  let first := find_custom_map_gamemode ∅ 24 example_key e
                 "ytsb8eitybw" false 5 fresh in
  let second := find_custom_map_gamemode ∅ 24 example_key e
                  "ytsb8eitybw" false 5 (snd first) in
  fst first = Return unknown
  /\ custom_maps (db (snd first)) !! "ytsb8eitybw" = None
  /\ custom_maps (db (snd first)) !! "ytsb8eitybw"
     ≠ Some (CacheEntry "unknown_map" "Unknown gamemode" 1600000000)
  /\ db_writes (snd first) = 0%nat
  /\ http_calls (snd first) = 1%nat
  /\ http_calls (snd second) = 2%nat.
Proof.
  vm_compute. repeat split; discriminate.
Qed.

End CustomMapsProps.

(** * Properties of main.py *)

Module MainProps.
Import Main MainSpec.

(** *** Sequencing *)

Lemma bind_done {A B : Type} (m : action A) (k : A -> action B)
    (s s' : session) (a : A) :
  m s = Done a s' -> bind m k s = k a s'.
Proof. intros H. unfold bind. rewrite H. reflexivity. Qed.

Lemma view_fields (s s' : session) :
  view s' = view s ->
  rpc_client s' = rpc_client s /\ client_connected s' = client_connected s
  /\ test_state s' = test_state s /\ slow_sleep_time s' = slow_sleep_time s
  /\ has_checked_class_configs s' = has_checked_class_configs s
  /\ class_config_runs s' = class_config_runs s
  /\ disconnects s' = disconnects s.
Proof. unfold view. intros H. injection H. intuition. Qed.

Section Facts.

Variable custom_functions : option TF2RPCustom.
Variable get_api_key : string -> string.
Variable wait_time : Z.
Variable wait_time_slow : Z.

Abbreviation hook := (custom custom_functions).
Abbreviation publish := (send_rpc_activity get_api_key).
Abbreviation pass := (loop_body custom_functions get_api_key).
Abbreviation middle := (branch custom_functions get_api_key).
Abbreviation tail := (epilogue custom_functions).

Lemma hook_done (f : TF2RPCustom -> session -> session) (s : session) :
  (forall c, custom_functions = Some c -> unobtrusive (f c)) ->
  exists s', hook f s = Done tt s' /\ view s' = view s.
Proof.
  intros Hf. unfold custom. destruct custom_functions as [c |].
  - exists (f c s). split; [reflexivity | apply Hf; reflexivity].
  - exists s. split; reflexivity.
Qed.

Lemma steam_configs_done (i : tick_input) (s : session) :
  exists s', steam_configs i s = Done tt s' /\ view s' = view s.
Proof.
  unfold steam_configs, when, bind, read.
  destruct (running (Steam (scan i))); [| eexists; split; reflexivity].
  destruct (bool_decide (steam_config_mtimes s = ∅) || _);
    [| eexists; split; reflexivity].
  cbn. destruct (nonempty (steam_config_results i));
    eexists; split; reflexivity.
Qed.

Lemma init_operations_done (s : session) :
  exists s', init_operations s = Done tt s' /\ view s' = view s.
Proof.
  unfold init_operations, when, bind, read.
  destruct (did_init_operations s); eexists; split; reflexivity.
Qed.

Lemma necessary_program_not_running_done (program_name name_short : string)
    (s : session) :
  has_client_when_connected s ->
  exists s',
    necessary_program_not_running program_name name_short s = Done tt s'
    /\ test_state s'
       = "no " +:+ lower (if bool_decide (name_short = "") then program_name
                          else name_short)
    /\ slow_sleep_time s' = true
    /\ client_connected s' = false
    /\ (client_connected s = true ->
        exists c, rpc_client s = Some c
                  /\ rpc_client s' = Some (Client (client_id c) false))
    /\ disconnects s'
       = (if client_connected s then S (disconnects s) else disconnects s)
    /\ has_checked_class_configs s' = has_checked_class_configs s
    /\ class_config_runs s' = class_config_runs s.
Proof.
  intros Hinv. unfold necessary_program_not_running, when, bind, read, assign.
  cbn. destruct (client_connected s) eqn:Hcc; cbn.
  - destruct (rpc_client s) as [c |] eqn:Hrc; [| exfalso; apply Hinv; auto].
    eexists. split; [reflexivity |]. cbn. rewrite ?Hcc.
    repeat split; try reflexivity. intros _. exists c. split; reflexivity.
  - eexists. split; [reflexivity |]. cbn. rewrite ?Hcc.
    repeat split; try reflexivity. discriminate.
Qed.

(** *** Publishing *)

Lemma recognized_iff (message : string) :
  recognized message = true <->
  message = "Can't send data to Discord via IPC."
  \/ message = "Can't connect to Discord Client.".
Proof.
  unfold recognized, cant_send, cant_connect.
  rewrite orb_true_iff, !bool_decide_eq_true. reflexivity.
Qed.

Lemma recognized_false (message : string) :
  message ≠ "Can't send data to Discord via IPC." ->
  message ≠ "Can't connect to Discord Client." ->
  recognized message = false.
Proof.
  intros H1 H2. apply not_true_is_false. rewrite recognized_iff. tauto.
Qed.

(** C9.  In a session that has a client whenever it is connected:
    if neither [connect()] nor [update_activity()] raises, publishing
    completes and the connected flag is true afterwards; if one of them
    raises [e], publishing completes without raising and leaves the
    connected flag as it was when [str(e)] is one of the two recognized
    messages, and raises [e] itself when it is neither. *)
Theorem publish_failures (i : tick_input) (s : session) :
  has_client_when_connected s ->
  (ipc_failure i s = None ->
   exists s', publish i s = Done tt s' /\ client_connected s' = true)
  /\ (forall e, ipc_failure i s = Some e ->
        (exc_str e = "Can't send data to Discord via IPC."
         \/ exc_str e = "Can't connect to Discord Client." ->
         exists s', publish i s = Done tt s'
                    /\ client_connected s' = client_connected s)
        /\ (exc_str e ≠ "Can't send data to Discord via IPC." ->
            exc_str e ≠ "Can't connect to Discord Client." ->
            exists s', publish i s = Raised e s')).
Proof.
  intros Hinv. unfold ipc_failure, send_rpc_activity, try_except, bind, when,
    read, assign, raise, ret.
  destruct (client_connected s) eqn:Hcc; cbn.
  - destruct (rpc_client s) as [c |] eqn:Hrc; [| exfalso; apply Hinv; auto].
    split.
    + intros ->. eexists. split; reflexivity.
    + intros e ->. split.
      * intros Hmsg. apply recognized_iff in Hmsg. rewrite Hmsg.
        eexists. split; [reflexivity | exact Hcc].
      * intros H1 H2. rewrite (recognized_false _ H1 H2).
        eexists. reflexivity.
  - destruct (ipc_connect i) as [ec |]; cbn.
    + split; [discriminate |]. intros e [= ->]. split.
      * intros Hmsg. apply recognized_iff in Hmsg. rewrite Hmsg.
        eexists. split; [reflexivity | exact Hcc].
      * intros H1 H2. rewrite (recognized_false _ H1 H2).
        eexists. reflexivity.
    + split.
      * intros ->. eexists. split; reflexivity.
      * intros e ->. split.
        -- intros Hmsg. apply recognized_iff in Hmsg. rewrite Hmsg.
           eexists. split; [reflexivity | exact Hcc].
        -- intros H1 H2. rewrite (recognized_false _ H1 H2).
           eexists. reflexivity.
Qed.

(** A pass made while the GUI is alive reaches the chain in a session that
    differs from the one it started in by the cleared slow-sleep flag and by
    fields outside the view. *)
Lemma pass_shape (i : tick_input) (s : session) :
  well_behaved custom_functions ->
  gui_alive i = true ->
  exists s2,
    pass i s = (middle i ;; tail) s2
    /\ view s2 = view (set_slow_sleep_time false s).
Proof.
  intros Hwb Halive. unfold loop_body. rewrite Halive. cbn [negb].
  do 5 (erewrite bind_done by reflexivity).
  match goal with |- context [bind (hook before_loop) _ ?st] =>
    destruct (hook_done before_loop st) as (s1 & Hs1 & Hv1);
      [intros c Hc; apply (Hwb c Hc) |]
  end.
  rewrite (bind_done _ _ _ _ _ Hs1).
  destruct (steam_configs_done i s1) as (s2 & Hs2 & Hv2).
  rewrite (bind_done _ _ _ _ _ Hs2).
  exists s2. split; [reflexivity |]. rewrite Hv2, Hv1. reflexivity.
Qed.

Lemma epilogue_done (s : session) :
  well_behaved custom_functions ->
  exists ret s', tail s = Done ret s' /\ view s' = view s.
Proof.
  intros Hwb. unfold epilogue.
  destruct (hook_done after_loop s) as (s4 & Hs4 & Hv4);
    [intros c Hc; apply (Hwb c Hc) |].
  rewrite (bind_done _ _ _ _ _ Hs4).
  destruct (init_operations_done s4) as (s5 & Hs5 & Hv5).
  rewrite (bind_done _ _ _ _ _ Hs5).
  rewrite <- Hv4, <- Hv5.
  unfold bind, read, when, assign, ret.
  destruct (no_condebug s5); cbn;
    destruct (has_set_process_priority s5); cbn;
    eexists _, _; split; reflexivity.
Qed.

(** *** A pass with a required program missing *)

Lemma branch_missing (i : tick_input) (s : session) :
  has_client_when_connected s ->
  running (TF2 (scan i)) && running (Discord (scan i))
    && running (Steam (scan i)) = false ->
  exists s',
    middle i s = Done tt s'
    /\ test_state s' = first_missing (scan i)
    /\ slow_sleep_time s' = true
    /\ client_connected s' = false
    /\ (client_connected s = true ->
        exists c, rpc_client s = Some c
                  /\ rpc_client s' = Some (Client (client_id c) false))
    /\ disconnects s'
       = (if client_connected s then S (disconnects s) else disconnects s)
    /\ has_checked_class_configs s' = has_checked_class_configs s
    /\ class_config_runs s' = class_config_runs s.
Proof.
  intros Hinv Hmissing. unfold branch, first_missing. rewrite Hmissing.
  destruct (running (TF2 (scan i)));
    [destruct (running (Discord (scan i))) |]; cbn [negb].
  - destruct (necessary_program_not_running_done "Steam" "" s Hinv)
      as (s3 & Hs3 & Hrest).
    rewrite (bind_done _ _ _ _ _ Hs3). eexists. split; [reflexivity |].
    exact Hrest.
  - destruct (necessary_program_not_running_done "Discord" "" s Hinv)
      as (s3 & Hs3 & Hrest).
    rewrite (bind_done _ _ _ _ _ Hs3). eexists. split; [reflexivity |].
    exact Hrest.
  - destruct (necessary_program_not_running_done "Team Fortress 2" "TF2"
                s Hinv) as (s3 & Hs3 & Hrest).
    rewrite (bind_done _ _ _ _ _ Hs3). eexists. split; [reflexivity |].
    exact Hrest.
Qed.


(** *** Sessions reached by the loop have a client whenever they are
    connected *)

Lemma invariant_view (s s' : session) :
  view s' = view s ->
  has_client_when_connected s -> has_client_when_connected s'.
Proof.
  intros Hv Hinv. apply view_fields in Hv.
  destruct Hv as (Hrc & Hcc & _). unfold has_client_when_connected.
  rewrite Hrc, Hcc. exact Hinv.
Qed.

Lemma publish_invariant (i : tick_input) (s : session) :
  has_client_when_connected s ->
  has_client_when_connected (final (publish i s)).
Proof.
  intros Hinv. unfold send_rpc_activity, try_except, bind, when, read,
    assign, raise, ret.
  destruct (client_connected s) eqn:Hcc; cbn.
  - destruct (rpc_client s) as [c |] eqn:Hrc; [| exfalso; apply Hinv; auto].
    destruct (ipc_update i) as [e |]; [destruct (recognized (exc_str e)) |];
      cbn; unfold has_client_when_connected; cbn; rewrite Hrc; discriminate.
  - destruct (ipc_connect i) as [ec |]; cbn.
    + destruct (recognized (exc_str ec)); cbn;
        unfold has_client_when_connected; cbn; discriminate.
    + destruct (ipc_update i) as [e |]; [destruct (recognized (exc_str e)) |];
        cbn; unfold has_client_when_connected; cbn; discriminate.
Qed.

Lemma all_running_invariant (i : tick_input) (s : session) :
  well_behaved custom_functions ->
  has_client_when_connected s ->
  has_client_when_connected
    (final (all_running custom_functions get_api_key i s)).
Proof.
  intros Hwb Hinv. unfold all_running.
  erewrite bind_done by reflexivity.
  assert (exists s1,
             when (negb (has_checked_class_configs s))
               (assign (add_effect (ClassConfigFiles (path (TF2 (scan i))))) ;;
                assign (set_has_checked_class_configs true)) s = Done tt s1
             /\ has_client_when_connected s1) as (s1 & Hs1 & Hinv1).
  { destruct (has_checked_class_configs s); eexists; split;
      try reflexivity; exact Hinv. }
  rewrite (bind_done _ _ _ _ _ Hs1).
  assert (exists s2,
             (if in_menus i then assign (set_test_state "menus")
              else assign (set_test_state "in game")) s1 = Done tt s2
             /\ has_client_when_connected s2) as (s2 & Hs2 & Hinv2).
  { destruct (in_menus i); eexists; split; try reflexivity; exact Hinv1. }
  rewrite (bind_done _ _ _ _ _ Hs2).
  destruct (update_rpc i).
  - erewrite bind_done by reflexivity.
    match goal with |- context [bind (hook loop_middle) _ ?st] =>
      destruct (hook_done loop_middle st) as (s3 & Hs3 & Hv3);
        [intros c Hc; apply (Hwb c Hc) |]
    end.
    rewrite (bind_done _ _ _ _ _ Hs3).
    apply publish_invariant. apply (invariant_view _ _ Hv3). exact Hinv2.
  - destruct (hook_done loop_middle s2) as (s3 & Hs3 & Hv3);
      [intros c Hc; apply (Hwb c Hc) |].
    rewrite Hs3. apply (invariant_view _ _ Hv3). exact Hinv2.
Qed.

Lemma pass_invariant (i : tick_input) (s : session) :
  well_behaved custom_functions ->
  has_client_when_connected s ->
  has_client_when_connected (final (pass i s)).
Proof.
  intros Hwb Hinv. destruct (gui_alive i) eqn:Halive;
    [| unfold loop_body; rewrite Halive; exact Hinv].
  destruct (pass_shape i s Hwb Halive) as (s2 & -> & Hv2).
  assert (has_client_when_connected s2) as Hinv2.
  { apply (invariant_view _ _ Hv2). exact Hinv. }
  assert (has_client_when_connected (final (middle i s2))) as Hmid.
  { unfold branch.
    destruct (running (TF2 (scan i)) && running (Discord (scan i))
              && running (Steam (scan i))) eqn:Hall.
    - apply all_running_invariant; assumption.
    - destruct (branch_missing i s2 Hinv2 Hall) as (s3 & Hs3 & _ & _ & Hcc & _).
      unfold branch in Hs3. rewrite Hall in Hs3. rewrite Hs3. cbn [final].
      unfold has_client_when_connected. rewrite Hcc. discriminate. }
  unfold bind. destruct (middle i s2) as [[] s3 | e s3 | s3];
    cbn [final] in *; try exact Hmid.
  destruct (epilogue_done s3 Hwb) as (ret & s' & -> & Hv).
  apply (invariant_view _ _ Hv). exact Hmid.
Qed.

Lemma run_invariant (ticks : list tick_input) (s : session) :
  well_behaved custom_functions ->
  has_client_when_connected s ->
  has_client_when_connected
    (final (run custom_functions get_api_key ticks s)).
Proof.
  intros Hwb. revert s. induction ticks as [| i ticks IH]; intros s Hinv.
  - exact Hinv.
  - cbn [run]. unfold bind.
    pose proof (pass_invariant i s Hwb Hinv) as Hpass.
    destruct (pass i s) as [ret s1 | e s1 | s1]; cbn [final] in *;
      [apply IH; exact Hpass | exact Hpass | exact Hpass].
Qed.

Lemma init_invariant (set_process_priority : bool) :
  has_client_when_connected (init set_process_priority).
Proof. unfold has_client_when_connected. discriminate. Qed.

(** *** Relations kept by every statement *)

Section Keeps.

Variable R : session -> session -> Prop.
Hypothesis R_guard : forall s s', guard s' = guard s -> R s s'.
Hypothesis R_trans : forall s1 s2 s3, R s1 s2 -> R s2 s3 -> R s1 s3.
Hypothesis Hwb : well_behaved custom_functions.

Lemma keeps_ret {A : Type} (a : A) : keeps R (ret a).
Proof. intros s. apply R_guard. reflexivity. Qed.

Lemma keeps_raise {A : Type} (e : py_exc) : keeps R (@raise A e).
Proof. intros s. apply R_guard. reflexivity. Qed.

Lemma keeps_system_exit {A : Type} : keeps R (@system_exit A).
Proof. intros s. apply R_guard. reflexivity. Qed.

Lemma keeps_read {A : Type} (field : session -> A) : keeps R (read field).
Proof. intros s. apply R_guard. reflexivity. Qed.

Lemma keeps_assign (f : session -> session) :
  (forall s, guard (f s) = guard s) -> keeps R (assign f).
Proof. intros Hf s. apply R_guard, Hf. Qed.

Lemma keeps_bind {A B : Type} (m : action A) (k : A -> action B) :
  keeps R m -> (forall a, keeps R (k a)) -> keeps R (bind m k).
Proof.
  intros Hm Hk s. specialize (Hm s). unfold bind.
  destruct (m s) as [a s' | e s' | s']; cbn [final] in *;
    [| exact Hm | exact Hm].
  apply R_trans with s'; [exact Hm | apply Hk].
Qed.

Lemma keeps_when (b : bool) (m : action unit) :
  keeps R m -> keeps R (when b m).
Proof. intros Hm. destruct b; [exact Hm | apply keeps_ret]. Qed.

Lemma keeps_try_except {A : Type} (m : action A) (h : py_exc -> action A) :
  keeps R m -> (forall e, keeps R (h e)) -> keeps R (try_except m h).
Proof.
  intros Hm Hh s. specialize (Hm s). unfold try_except.
  destruct (m s) as [a s' | e s' | s']; cbn [final] in *;
    [exact Hm | | exact Hm].
  apply R_trans with s'; [exact Hm | apply Hh].
Qed.

Lemma keeps_view {A : Type} (m : action A) :
  (forall s, exists a s', m s = Done a s' /\ view s' = view s) ->
  keeps R m.
Proof.
  intros Hm s. destruct (Hm s) as (a & s' & -> & Hv). cbn [final].
  apply R_guard. apply view_fields in Hv. unfold guard.
  destruct Hv as (_ & _ & _ & _ & -> & -> & _). reflexivity.
Qed.

Lemma keeps_hook (f : TF2RPCustom -> session -> session) :
  (forall c, custom_functions = Some c -> unobtrusive (f c)) ->
  keeps R (hook f).
Proof.
  intros Hf. apply keeps_view. intros s.
  destruct (hook_done f s Hf) as (s' & Hs' & Hv). eauto.
Qed.

Ltac keeps_steps :=
  repeat first
    [ apply keeps_ret | apply keeps_raise | apply keeps_system_exit
    | apply keeps_read
    | apply keeps_assign; intros ?; reflexivity
    | apply keeps_when
    | apply keeps_hook; intros c Hc; apply (Hwb c Hc)
    | apply keeps_bind; [| intros ?]
    | apply keeps_try_except; [| intros ?]
    | match goal with
      | |- keeps _ (match ?x with _ => _ end) => destruct x
      end ].

Lemma keeps_publish (i : tick_input) : keeps R (publish i).
Proof. unfold send_rpc_activity. keeps_steps. Qed.

Lemma keeps_necessary_program_not_running (program_name name_short : string) :
  keeps R (necessary_program_not_running program_name name_short).
Proof. unfold necessary_program_not_running. keeps_steps. Qed.

Lemma keeps_steam_configs (i : tick_input) : keeps R (steam_configs i).
Proof.
  apply keeps_view. intros s.
  destruct (steam_configs_done i s) as (s' & Hs' & Hv). eauto.
Qed.

Lemma keeps_init_operations : keeps R init_operations.
Proof.
  apply keeps_view. intros s.
  destruct (init_operations_done s) as (s' & Hs' & Hv). eauto.
Qed.

Lemma keeps_epilogue : keeps R tail.
Proof.
  unfold epilogue. apply keeps_bind; [| intros _].
  { apply keeps_hook. intros c Hc. apply (Hwb c Hc). }
  apply keeps_bind; [apply keeps_init_operations | intros _].
  keeps_steps.
Qed.

(** What [all_running] does once the class-config step is behind it. *)
Lemma keeps_after_class_configs (i : tick_input) :
  keeps R
    ((if in_menus i then assign (set_test_state "menus")
      else assign (set_test_state "in game")) ;;
     if update_rpc i then
       assign (set_activity (game_activity i)) ;;
       hook loop_middle ;;
       publish i
     else hook loop_middle).
Proof.
  apply keeps_bind; [keeps_steps | intros _].
  destruct (update_rpc i).
  - apply keeps_bind; [keeps_steps | intros _].
    apply keeps_bind; [keeps_steps | intros _].
    apply keeps_publish.
  - keeps_steps.
Qed.

(** A pass keeps whatever its middle chain keeps. *)
Lemma keeps_pass (i : tick_input) : keeps R (middle i) -> keeps R (pass i).
Proof.
  intros Hbranch. unfold loop_body.
  destruct (gui_alive i); cbn [negb]; [| apply keeps_system_exit].
  do 6 (apply keeps_bind; [keeps_steps | intros ?]).
  apply keeps_bind; [apply keeps_steam_configs | intros _].
  apply keeps_bind; [exact Hbranch | intros _].
  apply keeps_epilogue.
Qed.

Lemma keeps_branch_missing (i : tick_input) :
  running (TF2 (scan i)) && running (Discord (scan i))
    && running (Steam (scan i)) = false ->
  keeps R (middle i).
Proof.
  intros Hmissing. unfold branch. rewrite Hmissing.
  destruct (negb (running (TF2 (scan i))));
    [| destruct (negb (running (Discord (scan i))))];
    (apply keeps_bind;
     [apply keeps_necessary_program_not_running | intros _; keeps_steps]).
Qed.

End Keeps.

(** *** The class-config step *)

Lemma at_most_once_guard (s s' : session) :
  guard s' = guard s -> at_most_once s s'.
Proof.
  unfold guard, at_most_once. intros [= -> ->].
  destruct (has_checked_class_configs s); intuition.
Qed.

Lemma at_most_once_trans (s1 s2 s3 : session) :
  at_most_once s1 s2 -> at_most_once s2 s3 -> at_most_once s1 s3.
Proof.
  unfold at_most_once. intros [H1t H1f] [H2t H2f]. split.
  - intros Ht. destruct (H1t Ht) as [Ht2 Hr2].
    destruct (H2t Ht2) as [Ht3 Hr3]. split; congruence.
  - intros Hf. destruct (H1f Hf) as [[Hf2 Hr2] | [Ht2 Hr2]].
    + destruct (H2f Hf2) as [[Hf3 Hr3] | [Ht3 Hr3]];
        [left | right]; split; congruence.
    + destruct (H2t Ht2) as [Ht3 Hr3]. right. split; congruence.
Qed.

Lemma same_guard_trans (s1 s2 s3 : session) :
  same_guard s1 s2 -> same_guard s2 s3 -> same_guard s1 s3.
Proof. unfold same_guard. congruence. Qed.

(** The step itself, at the head of [all_running]. *)
Lemma class_configs_step (i : tick_input) (s : session) :
  well_behaved custom_functions ->
  let s' := final (all_running custom_functions get_api_key i s) in
  at_most_once s s'
  /\ (has_checked_class_configs s = false ->
      has_checked_class_configs s' = true
      /\ class_config_runs s' = S (class_config_runs s)).
Proof.
  intros Hwb s'. subst s'. unfold all_running.
  erewrite bind_done by reflexivity.
  pose proof (keeps_after_class_configs at_most_once at_most_once_guard
                at_most_once_trans Hwb i) as Hrest.
  destruct (has_checked_class_configs s) eqn:Hflag; cbn [negb when].
  - erewrite bind_done by reflexivity. split; [| discriminate].
    apply at_most_once_trans with s; [| apply Hrest].
    apply at_most_once_guard. reflexivity.
  - erewrite bind_done by reflexivity.
    match goal with |- context [final (_ ?st)] => set (s1 := st) end.
    destruct (Hrest s1) as [Hset _].
    destruct (Hset eq_refl) as [Hflag' Hruns'].
    change (class_config_runs s1) with (S (class_config_runs s)) in Hruns'.
    split; [| intros _; split; assumption].
    split; [intros Ht; congruence | intros _; right; split; assumption].
Qed.

Lemma pass_at_most_once (i : tick_input) :
  well_behaved custom_functions -> keeps at_most_once (pass i).
Proof.
  intros Hwb.
  apply keeps_pass;
    [exact at_most_once_guard | exact at_most_once_trans | exact Hwb |].
  unfold branch.
  destruct (running (TF2 (scan i)) && running (Discord (scan i))
            && running (Steam (scan i))) eqn:Hall.
  - intros s. apply (class_configs_step i s Hwb).
  - pose proof (keeps_branch_missing at_most_once at_most_once_guard
                  at_most_once_trans i Hall) as Hb.
    unfold branch in Hb. rewrite Hall in Hb. exact Hb.
Qed.

Lemma run_at_most_once (ticks : list tick_input) :
  well_behaved custom_functions ->
  keeps at_most_once (run custom_functions get_api_key ticks).
Proof.
  intros Hwb. induction ticks as [| i ticks IH]; cbn [run].
  - apply keeps_ret. exact at_most_once_guard.
  - apply keeps_bind;
      [exact at_most_once_trans | apply pass_at_most_once, Hwb
      | intros _; exact IH].
Qed.

(** C8, as the code has it.  With custom code (if any) that is unobtrusive:
    a pass made while the GUI is alive, with TF2, Discord and Steam all
    running and the guard flag unset, runs the class-config step once and
    leaves the flag set; a pass in which one of the three is not running
    neither runs the step nor touches the flag, so it does not reset it;
    once the flag is set, no sequence of passes runs the step again or
    clears the flag; and from the initial session no sequence of passes runs
    the step more than once. *)
Theorem class_configs_once_per_process :
  well_behaved custom_functions ->
  (forall i s,
      gui_alive i = true ->
      running (TF2 (scan i)) && running (Discord (scan i))
        && running (Steam (scan i)) = true ->
      has_checked_class_configs s = false ->
      has_checked_class_configs (final (pass i s)) = true
      /\ class_config_runs (final (pass i s)) = S (class_config_runs s))
  /\ (forall i s,
         running (TF2 (scan i)) && running (Discord (scan i))
           && running (Steam (scan i)) = false ->
         has_checked_class_configs (final (pass i s))
         = has_checked_class_configs s
         /\ class_config_runs (final (pass i s)) = class_config_runs s)
  /\ (forall ticks s,
         has_checked_class_configs s = true ->
         has_checked_class_configs
           (final (run custom_functions get_api_key ticks s)) = true
         /\ class_config_runs
              (final (run custom_functions get_api_key ticks s))
            = class_config_runs s)
  /\ (forall ticks set_process_priority,
         (class_config_runs
            (final (run custom_functions get_api_key ticks
                      (init set_process_priority))) <= 1)%nat).
Proof.
  intros Hwb.
  pose proof (keeps_epilogue at_most_once at_most_once_guard
                at_most_once_trans Hwb) as Hep.
  split; [| split; [| split]].
  - intros i s Halive Hall Hflag.
    destruct (pass_shape i s Hwb Halive) as (s2 & -> & Hv2).
    apply view_fields in Hv2. destruct Hv2 as (_ & _ & _ & _ & Hf2 & Hr2 & _).
    change (has_checked_class_configs s2 = has_checked_class_configs s) in Hf2.
    change (class_config_runs s2 = class_config_runs s) in Hr2.
    rewrite Hflag in Hf2.
    destruct (class_configs_step i s2 Hwb) as [_ Hstep].
    destruct (Hstep Hf2) as [Hset Hruns].
    unfold bind, branch. rewrite Hall. rewrite <- Hr2.
    destruct (all_running custom_functions get_api_key i s2)
      as [[] s3 | e s3 | s3]; cbn [final] in *;
      [| split; assumption | split; assumption].
    destruct (Hep s3) as [Hkeep _]. destruct (Hkeep Hset) as [-> ->].
    split; [reflexivity | exact Hruns].
  - intros i s Hmissing.
    pose proof (keeps_pass same_guard (fun _ _ Hg => Hg) same_guard_trans
                  Hwb i
                  (keeps_branch_missing same_guard (fun _ _ Hg => Hg)
                     same_guard_trans i Hmissing) s) as Hg.
    unfold same_guard, guard in Hg. injection Hg as -> ->.
    split; reflexivity.
  - intros ticks s Hflag.
    destruct (run_at_most_once ticks Hwb s) as [Hkeep _].
    apply (Hkeep Hflag).
  - intros ticks set_process_priority.
    destruct (run_at_most_once ticks Hwb (init set_process_priority))
      as [_ Hfresh].
    destruct (Hfresh eq_refl) as [[_ ->] | [_ ->]]; cbn; lia.
Qed.

End Facts.

(** *** The claims on concrete passes *)

Example lower_tf2 : lower "TF2" = "tf2".
Proof. reflexivity. Qed.

Lemma tweak_well_behaved : well_behaved (Some tweak).
Proof.
  intros c [= <-]. repeat split.
Qed.

Lemma publish_failures_witness :
  exists s',
    send_rpc_activity discord_key discord_starting (init true) = Done tt s'
    /\ client_connected s' = false.
Proof.
  destruct (publish_failures discord_key discord_starting (init true))
    as [_ Hfail]; [discriminate |].
  destruct (Hfail (PyExc (OtherException "ConnectionError")
                     "Can't connect to Discord Client.") eq_refl)
    as [Hcaught _].
  apply Hcaught. right. reflexivity.
Defined.


Lemma class_configs_once_per_process_witness :
  (class_config_runs
     (final (run (Some tweak) discord_key [playing; stopped; playing]
               (init true))) <= 1)%nat.
Proof.
  destruct (class_configs_once_per_process (Some tweak) discord_key
              tweak_well_behaved) as (_ & _ & _ & Honce).
  apply Honce.
Defined.

(** C8, as stated, fails.  TF2 is running, stops, and runs again, with
    Discord and Steam up throughout.  The step runs in the first pass; the
    pass in which the game is found stopped leaves the flag set; and the
    pass after the restart does not run the step again. *)
Lemma restart_does_not_rerun_class_configs :
  let s1 := final (loop_body None discord_key playing (init true)) in
  let s2 := final (loop_body None discord_key stopped s1) in
  let s3 := final (loop_body None discord_key playing s2) in
  class_config_runs s1 = 1%nat
  /\ test_state s2 = "no tf2"
  /\ has_checked_class_configs s2 = true
  /\ test_state s3 = "menus"
  /\ class_config_runs s3 = 1%nat
  /\ class_config_runs s3 ≠ 2%nat.
Proof.
  vm_compute. repeat split; discriminate.
Qed.

End MainProps.


(** * Further properties of custom_maps.py *)

Module CustomMapsExtra.
Import CustomMaps CustomMapsSpec CustomMapsProps ExtraScenarios.

(** *** The translation table *)

Lemma gamemodes_key_length (g fancy : string) :
  gamemodes !! g = Some fancy -> (3 <= String.length g)%nat.
Proof.
  intros H. unfold gamemodes in H. apply elem_of_list_to_map_2 in H.
  do 31 (apply elem_of_cons in H as [[= -> ->] | H]; [cbn; lia |]).
  apply elem_of_nil in H. contradiction.
Qed.

Lemma one_character_is_no_gamemode (c : ascii) :
  gamemodes !! String c EmptyString = None.
Proof.
  destruct (gamemodes !! String c EmptyString) as [fancy |] eqn:H;
    [| reflexivity].
  apply gamemodes_key_length in H. cbn in H. lia.
Qed.

Lemma unknown_map_is_no_gamemode : gamemodes !! "unknown_map" = None.
Proof. vm_compute. reflexivity. Qed.

(** *** The scan of the tags *)

Lemma first_gamemode_range (l : list json) :
  match first_gamemode l with
  | Return (Some found) => gamemodes !! fst found = Some (snd found)
  | Return None => True
  | Raise e => exc_kind e = TypeError
  end.
Proof.
  induction l as [| x l IH]; [exact I |].
  destruct x as [| b | n | g | l' | o]; cbn [first_gamemode].
  - exact IH.
  - exact IH.
  - exact IH.
  - destruct (gamemodes !! g) as [fancy |] eqn:Hg; [exact Hg | exact IH].
  - reflexivity.
  - reflexivity.
Qed.

Lemma first_gamemode_chars (s : string) :
  first_gamemode (map JStr (chars s)) = Return None.
Proof.
  induction s as [| c s IH]; [reflexivity |].
  cbn [chars map first_gamemode].
  rewrite one_character_is_no_gamemode. exact IH.
Qed.

(** How the use of a decoded body can end: with a [TypeError] and the world
    as it was, or with a pair (the fallback or one from the table) that is
    stored and returned. *)
Lemma parse_cases (cache : gmap string cache_entry) (map_filename : string)
    (now : Z) (map_info : json) (w : world) :
  (exists e, parse_api_result cache map_filename now map_info w = (Raise e, w)
             /\ exc_kind e = TypeError)
  \/ (exists found,
         parse_api_result cache map_filename now map_info w
         = cache_and_return cache map_filename now found w
         /\ (found = unknown \/ gamemodes !! fst found = Some (snd found))).
Proof.
  unfold parse_api_result.
  destruct (all_gamemodes map_info) as [v | e] eqn:Hall.
  - destruct (iterate v) as [tags | e] eqn:Hit.
    + pose proof (first_gamemode_range tags) as Hr.
      destruct (first_gamemode tags) as [[found |] | e].
      * right. exists found. auto.
      * right. exists unknown. auto.
      * left. exists e. auto.
    + left. exists e. split; [reflexivity |].
      destruct v; cbn in Hit; try discriminate; injection Hit as <-;
        reflexivity.
  - destruct map_info as [| b | n | s | l | o]; cbn in Hall;
      try (injection Hall as <-; left; eexists; split; reflexivity).
    destruct (dict_get "all_gamemodes" o); [discriminate |].
    injection Hall as <-. right. exists unknown. auto.
Qed.

Section Shape.

Variable common_custom : gmap string (string * string).
Variable map_invalidation_hours : Z.
Variable get_api_key : string -> string.

Lemma static_table_shape (e : env) (map_filename : string)
    (force_api : bool) (timeout : Q) (w : world) (gamemode : string * string) :
  map_filename ≠ "" ->
  common_custom !! map_filename = Some gamemode ->
  find_custom_map_gamemode common_custom map_invalidation_hours get_api_key
    e map_filename force_api timeout w
  = (Return gamemode, w).
Proof.
  intros Hne Hstatic. unfold find_custom_map_gamemode.
  rewrite bool_decide_false by exact Hne. rewrite Hstatic. reflexivity.
Qed.

End Shape.

Section Facts.

Variable common_custom : gmap string (string * string).
Variable map_invalidation_hours : Z.
Variable get_api_key : string -> string.

Abbreviation resolve :=
  (find_custom_map_gamemode common_custom map_invalidation_hours get_api_key).
Abbreviation url := (api_url get_api_key).
Abbreviation ttl := (map_invalidation_hours * 3600).
Abbreviation cached_answer := (look_in_cache map_invalidation_hours).
Abbreviation bypassed := (not_cached map_invalidation_hours).

(** The world after the cache was read and the request sent. *)
Abbreviation asked map_filename timeout w :=
  (record (HttpGet (url map_filename) timeout) (record DbRead w)).

(** The world after [found] was stored for the map and persisted. *)
Abbreviation stored map_filename now found w1 cache :=
  (access_db_write
     {| custom_maps :=
          <[map_filename := CacheEntry (fst found) (snd found) now]> cache;
        other_sections := other_sections (db w1) |}
     (record DbRead w1)).

(** The six ways a call can go. *)
Lemma resolve_cases (e : env) (map_filename : string) (force_api : bool)
    (timeout : Q) (w : world) :
  let out := resolve e map_filename force_api timeout w in
  let cache := custom_maps (db w) in
  (map_filename = "" /\ out = (Return unknown, w))
  \/ (map_filename ≠ ""
      /\ ((exists gamemode,
              common_custom !! map_filename = Some gamemode
              /\ out = (Return gamemode, w))
          \/ (common_custom !! map_filename = None
              /\ ((exists c,
                      force_api = false /\ cache !! map_filename = Some c
                      /\ time_now e - ce_time c <= ttl
                      /\ out = (Return (ce_gamemode c, ce_fancy c),
                                record DbRead w))
                  \/ (bypassed force_api (time_now e) cache map_filename
                      /\ ((exists ex,
                              requests_get e (url map_filename) timeout
                              = Throws ex
                              /\ out = (Return unknown,
                                        asked map_filename timeout w))
                          \/ (exists body,
                                 requests_get e (url map_filename) timeout
                                 = Body body
                                 /\ ((exists ex,
                                         out = (Raise ex,
                                                asked map_filename timeout w)
                                         /\ exc_kind ex = TypeError)
                                     \/ (exists found,
                                            out
                                            = (Return found,
                                               stored map_filename (time_now e)
                                                 found
                                                 (asked map_filename timeout w)
                                                 cache)
                                            /\ (found = unknown
                                                \/ gamemodes !! fst found
                                                   = Some (snd found))))))))))).
Proof.
  intros out cache. subst out cache.
  destruct (decide (map_filename = "")) as [-> | Hne]; [left; auto |].
  right. split; [exact Hne |].
  destruct (common_custom !! map_filename) as [gamemode |] eqn:Hstatic.
  { left. exists gamemode. split; [reflexivity |].
    apply static_table_shape; assumption. }
  right. split; [reflexivity |].
  rewrite resolve_custom by assumption.
  destruct (cached_answer force_api (time_now e) (custom_maps (db w))
              map_filename) as [hit |] eqn:Hlook.
  - left. unfold look_in_cache in Hlook.
    destruct force_api; [discriminate |].
    destruct (custom_maps (db w) !! map_filename) as [c |]; [| discriminate].
    case_bool_decide as Hage; [| discriminate]. injection Hlook as <-.
    exists c. auto.
  - right. split.
    { unfold not_cached.
      exact (proj1 (cached_answer_None map_invalidation_hours get_api_key
                      _ _ _ _) Hlook). }
    unfold ask_api.
    destruct (requests_get e (url map_filename) timeout) as [body | ex].
    + right. exists body. split; [reflexivity |].
      destruct (parse_cases (custom_maps (db w)) map_filename (time_now e)
                  body (asked map_filename timeout w))
        as [(ex & -> & Hex) | (found & -> & Hfound)].
      * left. exists ex. auto.
      * right. exists found. rewrite cache_and_return_eq. auto.
    + left. exists ex. split; [reflexivity |].
      destruct (exc_kind ex); reflexivity.
Qed.

Ltac call_cases e map_filename force_api timeout w :=
  let H := fresh "H" in
  pose proof (resolve_cases e map_filename force_api timeout w) as H;
  cbv zeta in H;
  destruct H
    as [[? Hout]
       | [Hne0 [(gm0 & Hstatic0 & Hout)
               | [Hstatic0 [(c0 & Hforce0 & Hc0 & Hage0 & Hout)
                           | [Hbyp0 [(ex0 & Hget0 & Hout)
                                    | (body0 & Hget0
                                       & [(ex0 & Hout & Hex0)
                                         | (found0 & Hout & Hfound0)])]]]]]]];
  rewrite ?Hout in *.

(** X1.  A call sends at most one request, and sends one exactly when the
    name is not blank, is not in the static table, and the cache does not
    settle the call (the call is forced, or the entry is missing or older
    than the TTL).  It writes the persisted document at most once, and only
    in a call that has sent a request. *)
Theorem request_sent_exactly_when_needed (e : env) (map_filename : string)
    (force_api : bool) (timeout : Q) (w : world) :
  let out := resolve e map_filename force_api timeout w in
  (http_calls (snd out) = S (http_calls w) <->
   map_filename ≠ "" /\ common_custom !! map_filename = None
   /\ bypassed force_api (time_now e) (custom_maps (db w)) map_filename)
  /\ (http_calls (snd out) = http_calls w
      \/ http_calls (snd out) = S (http_calls w))
  /\ (db_writes (snd out) = db_writes w
      \/ (db_writes (snd out) = S (db_writes w)
          /\ http_calls (snd out) = S (http_calls w))).
Proof.
  intros out. subst out.
  call_cases e map_filename force_api timeout w; subst; cbn [snd].
  - split; [split | split; left; reflexivity].
    + intros H. exfalso. exact (n_Sn _ H).
    + intros (Hblank & _). contradiction.
  - split; [split | split; left; reflexivity].
    + intros H. exfalso. exact (n_Sn _ H).
    + intros (_ & Hnone & _). congruence.
  - split; [split | split; left; reflexivity].
    + intros H. exfalso. exact (n_Sn _ H).
    + intros (_ & _ & [Hf | [Hn | (c' & Hc' & Hlt)]]); [congruence.. |].
      rewrite Hc0 in Hc'. injection Hc' as <-. lia.
  - split; [split; [auto | reflexivity] | split; [right | left]; reflexivity].
  - split; [split; [auto | reflexivity] | split; [right | left]; reflexivity].
  - split; [split; [auto | reflexivity] |].
    split; right; [| split]; reflexivity.
Qed.

(** X2.  A call changes at most the cache entry of the map it was asked
    about: every other entry, and every other section of the persisted
    document, is what it was. *)
Theorem only_own_entry_changes (e : env) (map_filename : string)
    (force_api : bool) (timeout : Q) (w : world) :
  let out := resolve e map_filename force_api timeout w in
  other_sections (db (snd out)) = other_sections (db w)
  /\ forall k, k ≠ map_filename ->
       custom_maps (db (snd out)) !! k = custom_maps (db w) !! k.
Proof.
  intros out. subst out.
  call_cases e map_filename force_api timeout w; subst; cbn;
    split; try reflexivity; intros k Hk; try reflexivity.
  apply lookup_insert_ne. congruence.
Qed.

(** X3.  Entries are never removed: an entry present before a call is
    present after it, either as it was or, for the map asked about, with
    the time of the call.  So when the clock is not behind an entry's
    time, the entry's time does not go back. *)
Theorem entries_stay_and_follow_the_clock (e : env) (map_filename : string)
    (force_api : bool) (timeout : Q) (w : world) :
  let out := resolve e map_filename force_api timeout w in
  forall k c,
    custom_maps (db w) !! k = Some c ->
    exists c',
      custom_maps (db (snd out)) !! k = Some c'
      /\ (c' = c \/ (k = map_filename /\ ce_time c' = time_now e))
      /\ (ce_time c <= time_now e -> ce_time c <= ce_time c').
Proof.
  intros out k c Hk. subst out.
  call_cases e map_filename force_api timeout w; subst; cbn;
    try (exists c; split; [exact Hk | split; [left; reflexivity | lia]]).
  destruct (decide (k = map_filename)) as [-> | Hother].
  - rewrite lookup_insert_eq. eexists. split; [reflexivity |].
    split; [right; split; reflexivity | cbn; lia].
  - rewrite lookup_insert_ne by congruence.
    exists c. split; [exact Hk | split; [left; reflexivity | lia]].
Qed.

(** X4.  The blank name never becomes a key of the cache: a cache without
    an entry for it has none after any call. *)
Theorem blank_name_is_never_cached (e : env) (map_filename : string)
    (force_api : bool) (timeout : Q) (w : world) :
  custom_maps (db w) !! "" = None ->
  custom_maps
    (db (snd (resolve e map_filename force_api timeout w))) !! ""
  = None.
Proof.
  intros Hblank.
  call_cases e map_filename force_api timeout w; subst; cbn;
    try exact Hblank.
  rewrite lookup_insert_ne by exact Hne0. exact Hblank.
Qed.

(** X5.  What a resolution through the network returns is what the cache
    serves afterwards: when a call that sent a request and received a body
    returns [r], a later call for the same map that is not forced and is
    made while the entry is at most the TTL old returns [r] as well, after
    one read of the cache and without a request. *)
Theorem network_answer_is_served_from_cache (e e' : env)
    (map_filename : string) (force_api : bool) (timeout timeout' : Q)
    (w : world) (body : json) (r : string * string) :
  map_filename ≠ "" ->
  common_custom !! map_filename = None ->
  bypassed force_api (time_now e) (custom_maps (db w)) map_filename ->
  requests_get e (url map_filename) timeout = Body body ->
  fst (resolve e map_filename force_api timeout w) = Return r ->
  time_now e' - time_now e <= ttl ->
  let w1 := snd (resolve e map_filename force_api timeout w) in
  resolve e' map_filename false timeout' w1 = (Return r, record DbRead w1).
Proof.
  intros Hne' Hstatic' Hbyp' Hget' Hret Hage' w1. subst w1.
  call_cases e map_filename force_api timeout w; subst; cbn [fst snd] in *;
    try congruence.
  - exfalso. destruct Hbyp' as [Hf | [Hn | (c' & Hc' & Hlt)]];
      [congruence.. |].
    rewrite Hc0 in Hc'. injection Hc' as <-. lia.
  - injection Hret as <-.
    rewrite resolve_custom by assumption.
    unfold look_in_cache. cbn. rewrite lookup_insert_eq. cbn [ce_time].
    rewrite bool_decide_true by exact Hage'. destruct found0; reflexivity.
Qed.

(** X6.  Every pair a call returns has a source: it is the fallback pair,
    the value the static table holds for the name, the pair of the name's
    cache entry, or a key of the translation table with its fancy name. *)
Theorem answer_has_a_source (e : env) (map_filename : string)
    (force_api : bool) (timeout : Q) (w : world) (r : string * string) :
  fst (resolve e map_filename force_api timeout w) = Return r ->
  r = unknown
  \/ common_custom !! map_filename = Some r
  \/ (exists c, custom_maps (db w) !! map_filename = Some c
                /\ r = (ce_gamemode c, ce_fancy c))
  \/ gamemodes !! fst r = Some (snd r).
Proof.
  intros Hret.
  call_cases e map_filename force_api timeout w; subst; cbn [fst] in Hret;
    try discriminate; injection Hret as <-; eauto 6.
  destruct Hfound0 as [-> | Hfound0]; auto.
Qed.

(** X7.  The only exception a call lets escape is a [TypeError], and only
    from the use of a body that was received: the request has been sent,
    and nothing has been written to the cache. *)
Theorem only_type_errors_escape (e : env) (map_filename : string)
    (force_api : bool) (timeout : Q) (w : world) (ex : py_exc) :
  fst (resolve e map_filename force_api timeout w) = Raise ex ->
  exc_kind ex = TypeError
  /\ (exists body, requests_get e (url map_filename) timeout = Body body)
  /\ db (snd (resolve e map_filename force_api timeout w)) = db w
  /\ http_calls (snd (resolve e map_filename force_api timeout w))
     = S (http_calls w).
Proof.
  intros Hret.
  call_cases e map_filename force_api timeout w; subst; cbn [fst] in Hret;
    try discriminate.
  injection Hret as <-. repeat split; eauto.
Qed.

(** X8.  A body that decodes to something other than a JSON object (a
    list, a string, a number, a boolean, null) makes the call raise a
    [TypeError] after the request, with nothing written to the cache. *)
Theorem body_that_is_no_object_raises (e : env) (map_filename : string)
    (force_api : bool) (timeout : Q) (w : world) (body : json) :
  map_filename ≠ "" ->
  common_custom !! map_filename = None ->
  bypassed force_api (time_now e) (custom_maps (db w)) map_filename ->
  requests_get e (url map_filename) timeout = Body body ->
  (forall o, body ≠ JObj o) ->
  exists ex,
    resolve e map_filename force_api timeout w
    = (Raise ex, asked map_filename timeout w)
    /\ exc_kind ex = TypeError.
Proof.
  intros Hne Hstatic Hbyp Hget Hshape.
  apply (proj2 (cached_answer_None map_invalidation_hours get_api_key
                  _ _ _ _)) in Hbyp.
  rewrite resolve_custom, Hbyp by assumption.
  unfold ask_api. rewrite Hget. unfold parse_api_result.
  destruct body as [| b | n | s | l | o]; cbn;
    try (eexists; split; reflexivity).
  exfalso. exact (Hshape o eq_refl).
Qed.

(** X9.  A body whose ['all_gamemodes'] is a string rather than a list is
    unresolvable whatever the string says, the name of a known gamemode
    included: the loop visits its characters, none of which is a key of the
    table, and the fallback pair is stored and returned. *)
Theorem bare_string_is_unresolvable (e : env) (map_filename : string)
    (force_api : bool) (timeout : Q) (w : world)
    (o : list (string * json)) (s : string) :
  map_filename ≠ "" ->
  common_custom !! map_filename = None ->
  bypassed force_api (time_now e) (custom_maps (db w)) map_filename ->
  requests_get e (url map_filename) timeout = Body (JObj o) ->
  dict_get "all_gamemodes" o = Some (JStr s) ->
  let out := resolve e map_filename force_api timeout w in
  fst out = Return unknown
  /\ custom_maps (db (snd out)) !! map_filename
     = Some (CacheEntry "unknown_map" "Unknown gamemode" (time_now e)).
Proof.
  intros Hne Hstatic Hbyp Hget Hs out. subst out.
  apply (proj2 (cached_answer_None map_invalidation_hours get_api_key
                  _ _ _ _)) in Hbyp.
  rewrite resolve_custom, Hbyp by assumption.
  unfold ask_api. rewrite Hget. unfold parse_api_result, all_gamemodes.
  rewrite Hs. cbn [iterate]. rewrite first_gamemode_chars.
  rewrite cache_and_return_eq. cbn. rewrite lookup_insert_eq.
  split; reflexivity.
Qed.

End Facts.

(** X10.  A cache handed to the accessor is read back from it: after the
    accessor has been given a non-empty dict, which it stores without
    returning anything, a call without argument returns that dict, and the
    other sections of the document are what they were. *)
Theorem written_cache_is_read_back (m : gmap string cache_entry) (w : world) :
  m ≠ ∅ ->
  let written := access_custom_maps_cache (Some m) w in
  fst written = None
  /\ fst (access_custom_maps_cache None (snd written)) = Some m
  /\ other_sections (db (snd written)) = other_sections (db w).
Proof.
  intros Hm written. subst written. rewrite write_cache by exact Hm.
  repeat split.
Qed.

(** *** The properties on concrete calls *)

Lemma only_own_entry_changes_witness :
  custom_maps
    (db (snd (find_custom_map_gamemode ∅ 24 example_key
                (Env 1600000000 (always control_point))
                "cp_catwalk_a5c" false 5 with_badwater)))
    !! "pl_badwater_pro"
  = Some (CacheEntry "payload" "Payload" 1500000000).
Proof.
  destruct (only_own_entry_changes ∅ 24 example_key
              (Env 1600000000 (always control_point))
              "cp_catwalk_a5c" false 5 with_badwater) as [_ Hother].
  rewrite Hother by discriminate. vm_compute. reflexivity.
Defined.

Lemma entries_stay_and_follow_the_clock_witness :
  exists c',
    custom_maps
      (db (snd (find_custom_map_gamemode ∅ 24 example_key
                  (Env 1600000000 (always control_point))
                  "pl_badwater_pro" true 5 with_badwater)))
      !! "pl_badwater_pro" = Some c'
    /\ 1500000000 <= ce_time c'.
Proof.
  destruct (entries_stay_and_follow_the_clock ∅ 24 example_key
              (Env 1600000000 (always control_point))
              "pl_badwater_pro" true 5 with_badwater
              "pl_badwater_pro" (CacheEntry "payload" "Payload" 1500000000))
    as (c' & Hc' & _ & Htime); [vm_compute; reflexivity |].
  exists c'. split; [exact Hc' |]. apply Htime. vm_compute. discriminate.
Defined.

Lemma blank_name_is_never_cached_witness :
  custom_maps
    (db (snd (find_custom_map_gamemode ∅ 24 example_key
                (Env 1600000000 (always control_point))
                "cp_catwalk_a5c" false 5 fresh))) !! ""
  = None.
Proof.
  apply blank_name_is_never_cached. vm_compute. reflexivity.
Defined.

Lemma network_answer_is_served_from_cache_witness :
  let first := find_custom_map_gamemode ∅ 24 example_key
                 (Env 1600000000 (always control_point))
                 "cp_catwalk_a5c" false 5 fresh in
  find_custom_map_gamemode ∅ 24 example_key
    (Env 1600003600 (always (Throws (PyExc ReadTimeout "Read timed out."))))
    "cp_catwalk_a5c" false 5 (snd first)
  = (Return ("control-point", "Control Point"), record DbRead (snd first)).
Proof.
  intros first.
  apply (network_answer_is_served_from_cache ∅ 24 example_key
           (Env 1600000000 (always control_point))
           (Env 1600003600
              (always (Throws (PyExc ReadTimeout "Read timed out."))))
           "cp_catwalk_a5c" false 5 5 fresh
           (JObj [("all_gamemodes", JArr [JStr "control-point"])]));
    [discriminate | vm_compute; reflexivity | right; left; reflexivity
    | reflexivity | vm_compute; reflexivity | vm_compute; discriminate].
Defined.

Lemma answer_has_a_source_witness :
  ("control-point", "Control Point") = unknown
  \/ (∅ : gmap string (string * string)) !! "cp_catwalk_a5c"
     = Some ("control-point", "Control Point")
  \/ (exists c, custom_maps (db fresh) !! "cp_catwalk_a5c" = Some c
                /\ ("control-point", "Control Point")
                   = (ce_gamemode c, ce_fancy c))
  \/ gamemodes !! "control-point" = Some "Control Point".
Proof.
  apply (answer_has_a_source ∅ 24 example_key
           (Env 1600000000 (always control_point))
           "cp_catwalk_a5c" false 5 fresh ("control-point", "Control Point")).
  vm_compute. reflexivity.
Defined.

Lemma only_type_errors_escape_witness :
  db (snd (find_custom_map_gamemode ∅ 24 example_key
             (Env 1600000000 (always (Body (JArr []))))
             "cp_catwalk_a5c" false 5 fresh))
  = db fresh.
Proof.
  destruct (only_type_errors_escape ∅ 24 example_key
              (Env 1600000000 (always (Body (JArr []))))
              "cp_catwalk_a5c" false 5 fresh
              (PyExc TypeError "bad subscript")) as (_ & _ & Hdb & _);
    [vm_compute; reflexivity | exact Hdb].
Defined.

Lemma body_that_is_no_object_raises_witness :
  exists ex,
    find_custom_map_gamemode ∅ 24 example_key
      (Env 1600000000 (always (Body JNull))) "cp_catwalk_a5c" false 5 fresh
    = (Raise ex,
       record (HttpGet (api_url example_key "cp_catwalk_a5c") 5)
         (record DbRead fresh))
    /\ exc_kind ex = TypeError.
Proof.
  apply (body_that_is_no_object_raises ∅ 24 example_key
           (Env 1600000000 (always (Body JNull)))
           "cp_catwalk_a5c" false 5 fresh JNull);
    [discriminate | vm_compute; reflexivity | right; left; reflexivity
    | reflexivity | discriminate].
Defined.

Lemma bare_string_is_unresolvable_witness :
  let out := find_custom_map_gamemode ∅ 24 example_key
               (Env 1600000000
                  (always (Body (JObj [("all_gamemodes", JStr "ctf")]))))
               "ctf_turbine_pro" false 5 fresh in
  fst out = Return unknown
  /\ custom_maps (db (snd out)) !! "ctf_turbine_pro"
     = Some (CacheEntry "unknown_map" "Unknown gamemode" 1600000000).
Proof.
  apply (bare_string_is_unresolvable ∅ 24 example_key
           (Env 1600000000
              (always (Body (JObj [("all_gamemodes", JStr "ctf")]))))
           "ctf_turbine_pro" false 5 fresh [("all_gamemodes", JStr "ctf")]
           "ctf");
    [discriminate | vm_compute; reflexivity | right; left; reflexivity
    | reflexivity | reflexivity].
Defined.

Lemma written_cache_is_read_back_witness :
  let m : gmap string cache_entry :=
    {[ "cp_catwalk_a5c" := CacheEntry "control-point" "Control Point"
                             1600000000 ]} in
  fst (access_custom_maps_cache None
         (snd (access_custom_maps_cache (Some m) with_badwater)))
  = Some m.
Proof.
  intros m.
  destruct (written_cache_is_read_back m with_badwater) as (_ & Hread & _);
    [apply map_non_empty_singleton | exact Hread].
Defined.

End CustomMapsExtra.

(** * Properties of tests.py *)

Module TestsProps.
Import Tests ExtraScenarios.

Lemma dict_get_set_eq (key : string) (v : json) (o : list (string * json)) :
  dict_get key (dict_set key v o) = Some v.
Proof.
  induction o as [| [k x] o IH]; cbn.
  - rewrite bool_decide_true by reflexivity. reflexivity.
  - case_bool_decide as Hk; cbn.
    + rewrite bool_decide_true by exact Hk. reflexivity.
    + rewrite bool_decide_false by exact Hk. exact IH.
Qed.

Lemma dict_get_set_ne (key k' : string) (v : json)
    (o : list (string * json)) :
  k' ≠ key -> dict_get k' (dict_set key v o) = dict_get k' o.
Proof.
  intros Hne. induction o as [| [k x] o IH]; cbn.
  - rewrite bool_decide_false by congruence. reflexivity.
  - case_bool_decide as Hk; cbn.
    + subst k. rewrite !bool_decide_false by congruence. reflexivity.
    + case_bool_decide; [reflexivity | exact IH].
Qed.

Lemma dict_set_set (key : string) (v v' : json) (o : list (string * json)) :
  dict_set key v' (dict_set key v o) = dict_set key v' o.
Proof.
  induction o as [| [k x] o IH]; cbn.
  - rewrite bool_decide_true by reflexivity. reflexivity.
  - case_bool_decide as Hk; cbn.
    + rewrite bool_decide_true by exact Hk. reflexivity.
    + rewrite bool_decide_false by exact Hk. rewrite IH. reflexivity.
Qed.

Lemma dict_set_keys (key : string) (v x : json) (o : list (string * json)) :
  dict_get key o = Some x -> map fst (dict_set key v o) = map fst o.
Proof.
  induction o as [| [k y] o IH]; cbn; [discriminate |].
  case_bool_decide as Hk; cbn; [reflexivity |].
  intros Hget. rewrite IH by exact Hget. reflexivity.
Qed.

(** X11.  For an activity whose ['timestamps'] is a dict with an integer
    (or boolean) ['start'], [fix_activity_dict] returns the activity with
    that start set to 0 and everything else as it was: the other keys of
    the activity and of its timestamps keep their values, no key is added
    or moved, and fixing the result again changes nothing. *)
Theorem fix_activity_dict_resets_start (activity o : list (string * json))
    (start : json) :
  dict_get "timestamps" activity = Some (JObj o) ->
  dict_get "start" o = Some start ->
  (exists n, start = JNum n) \/ (exists b, start = JBool b) ->
  exists activity' o',
    fix_activity_dict activity = Return activity'
    /\ dict_get "timestamps" activity' = Some (JObj o')
    /\ dict_get "start" o' = Some (JNum 0)
    /\ (forall k, k ≠ "start" -> dict_get k o' = dict_get k o)
    /\ (forall k, k ≠ "timestamps" ->
          dict_get k activity' = dict_get k activity)
    /\ map fst activity' = map fst activity
    /\ map fst o' = map fst o
    /\ fix_activity_dict activity' = Return activity'.
Proof.
  intros Hts Hstart Hnum.
  assert (int_times_zero start = Return (JNum 0)) as Hzero.
  { destruct Hnum as [[n ->] | [b ->]]; reflexivity. }
  exists (dict_set "timestamps" (JObj (dict_set "start" (JNum 0) o)) activity),
    (dict_set "start" (JNum 0) o).
  assert (fix_activity_dict activity
          = Return (dict_set "timestamps"
                      (JObj (dict_set "start" (JNum 0) o)) activity)) as Hfix.
  { unfold fix_activity_dict, reset_start, subscript.
    rewrite Hts, Hstart, Hzero. reflexivity. }
  split; [exact Hfix |].
  split; [apply dict_get_set_eq |].
  split; [apply dict_get_set_eq |].
  split; [intros k Hk; apply dict_get_set_ne; exact Hk |].
  split; [intros k Hk; apply dict_get_set_ne; exact Hk |].
  split; [apply dict_set_keys with (JObj o); exact Hts |].
  split; [apply dict_set_keys with start; exact Hstart |].
  unfold fix_activity_dict, reset_start, subscript.
  rewrite !dict_get_set_eq. cbn [int_times_zero].
  rewrite !dict_set_set. reflexivity.
Qed.

(** X12.  [fix_activity_dict] swallows exactly the missing keys: an
    activity without ['timestamps'], or whose timestamps dict has no
    ['start'], is returned as it is; a ['start'] that is a string makes the
    [ValueError] of [int('')] escape. *)
Theorem fix_activity_dict_missing_keys (activity : list (string * json)) :
  (dict_get "timestamps" activity = None ->
   fix_activity_dict activity = Return activity)
  /\ (forall o,
         dict_get "timestamps" activity = Some (JObj o) ->
         dict_get "start" o = None ->
         fix_activity_dict activity = Return activity)
  /\ (forall o s,
         dict_get "timestamps" activity = Some (JObj o) ->
         dict_get "start" o = Some (JStr s) ->
         exists e, fix_activity_dict activity = Raise e
                   /\ exc_kind e = OtherException "ValueError").
Proof.
  unfold fix_activity_dict, reset_start, subscript. repeat split.
  - intros ->. reflexivity.
  - intros o -> ->. reflexivity.
  - intros o s -> ->. eexists. split; reflexivity.
Qed.

Lemma fix_activity_dict_resets_start_witness :
  exists activity' o',
    fix_activity_dict in_menus_activity = Return activity'
    /\ dict_get "timestamps" activity' = Some (JObj o')
    /\ dict_get "start" o' = Some (JNum 0)
    /\ dict_get "details" activity' = Some (JStr "In menus")
    /\ fix_activity_dict activity' = Return activity'.
Proof.
  destruct (fix_activity_dict_resets_start in_menus_activity
              [("start", JNum 1600000000)] (JNum 1600000000))
    as (activity' & o' & Hfix & Hts & Hstart & _ & Hother & _ & _ & Hagain);
    [reflexivity | reflexivity | left; eexists; reflexivity |].
  exists activity', o'.
  split; [exact Hfix |]. split; [exact Hts |]. split; [exact Hstart |].
  split; [| exact Hagain].
  rewrite Hother by discriminate. reflexivity.
Defined.

Lemma fix_activity_dict_missing_keys_witness :
  fix_activity_dict [("details", JStr "In menus")]
  = Return [("details", JStr "In menus")].
Proof.
  destruct (fix_activity_dict_missing_keys [("details", JStr "In menus")])
    as [Hnone _].
  apply Hnone. reflexivity.
Defined.

End TestsProps.

(** * Further properties of main.py *)

Module MainExtra.
Import Main MainSpec MainProps MainExtraSpec.

#[local] Instance same_reflexive {X : Type} (obs : session -> X) :
  Reflexive (same obs).
Proof. intros s. reflexivity. Qed.

#[local] Instance same_transitive {X : Type} (obs : session -> X) :
  Transitive (same obs).
Proof. unfold same. intros s1 s2 s3 H1 H2. congruence. Qed.

#[local] Instance one_shot_reflexive (flag : session -> bool)
    (count : session -> nat) : Reflexive (one_shot flag count).
Proof. intros s. unfold one_shot. destruct (flag s); intuition. Qed.

#[local] Instance one_shot_transitive (flag : session -> bool)
    (count : session -> nat) : Transitive (one_shot flag count).
Proof.
  unfold one_shot. intros s1 s2 s3 [H1t H1f] [H2t H2f]. split.
  - intros Ht. destruct (H1t Ht) as [Ht2 Hr2].
    destruct (H2t Ht2) as [Ht3 Hr3]. split; congruence.
  - intros Hf. destruct (H1f Hf) as [[Hf2 Hr2] | [Ht2 Hr2]].
    + destruct (H2f Hf2) as [[Hf3 Hr3] | [Ht3 Hr3]];
        [left | right]; split; congruence.
    + destruct (H2t Ht2) as [Ht3 Hr3]. right. split; congruence.
Qed.

#[local] Instance names_grow_reflexive : Reflexive names_grow.
Proof. intros s. unfold names_grow. set_solver. Qed.

#[local] Instance names_grow_transitive : Transitive names_grow.
Proof. unfold names_grow. intros s1 s2 s3. set_solver. Qed.

#[local] Instance preserves_reflexive (inv : session -> Prop) :
  Reflexive (preserves inv).
Proof. intros s H. exact H. Qed.

#[local] Instance preserves_transitive (inv : session -> Prop) :
  Transitive (preserves inv).
Proof. unfold preserves. intros s1 s2 s3 H1 H2 H. auto. Qed.

(** *** Relations kept by the statements, for any preorder *)

Section Rel.

Variable custom_functions : option TF2RPCustom.
Variable get_api_key : string -> string.
Variable R : session -> session -> Prop.
Context `{!Reflexive R, !Transitive R}.

Lemma rel_ret {A : Type} (a : A) : keeps R (ret a).
Proof. intros s. reflexivity. Qed.

Lemma rel_raise {A : Type} (e : py_exc) : keeps R (@raise A e).
Proof. intros s. reflexivity. Qed.

Lemma rel_system_exit {A : Type} : keeps R (@system_exit A).
Proof. intros s. reflexivity. Qed.

Lemma rel_read {A : Type} (field : session -> A) : keeps R (read field).
Proof. intros s. reflexivity. Qed.

Lemma rel_assign (f : session -> session) :
  (forall s, R s (f s)) -> keeps R (assign f).
Proof. intros Hf s. apply Hf. Qed.

Lemma rel_bind {A B : Type} (m : action A) (k : A -> action B) :
  keeps R m -> (forall a, keeps R (k a)) -> keeps R (bind m k).
Proof.
  intros Hm Hk s. specialize (Hm s). unfold bind.
  destruct (m s) as [a s' | e s' | s']; cbn [final] in *;
    [| exact Hm | exact Hm].
  transitivity s'; [exact Hm | apply Hk].
Qed.

Lemma rel_when (b : bool) (m : action unit) :
  keeps R m -> keeps R (when b m).
Proof. intros Hm. destruct b; [exact Hm | apply rel_ret]. Qed.

Lemma rel_try_except {A : Type} (m : action A) (h : py_exc -> action A) :
  keeps R m -> (forall e, keeps R (h e)) -> keeps R (try_except m h).
Proof.
  intros Hm Hh s. specialize (Hm s). unfold try_except.
  destruct (m s) as [a s' | e s' | s']; cbn [final] in *;
    [exact Hm | | exact Hm].
  transitivity s'; [exact Hm | apply Hh].
Qed.

Lemma rel_hook (f : TF2RPCustom -> session -> session) :
  (forall c, custom_functions = Some c -> forall s, R s (f c s)) ->
  keeps R (custom custom_functions f).
Proof.
  intros Hf. unfold custom. destruct custom_functions as [c |].
  - apply rel_assign. apply Hf. reflexivity.
  - apply rel_ret.
Qed.

(** A pass keeps what its parts keep. *)
Lemma rel_pass (i : tick_input) :
  keeps R (assign (set_slow_sleep_time false)) ->
  (forall n, keeps R (assign (set_loop_iteration n))) ->
  keeps R (assign (set_no_condebug false)) ->
  keeps R (assign (set_fast_next_loop false)) ->
  keeps R (custom custom_functions before_loop) ->
  keeps R (steam_configs i) ->
  keeps R (branch custom_functions get_api_key i) ->
  keeps R (epilogue custom_functions) ->
  keeps R (loop_body custom_functions get_api_key i).
Proof.
  intros H1 H2 H3 H4 H5 H6 H7 H8. unfold loop_body.
  destruct (gui_alive i); cbn [negb]; [| apply rel_system_exit].
  apply rel_bind; [exact H1 | intros _].
  apply rel_bind; [apply rel_read | intros n].
  apply rel_bind; [apply H2 | intros _].
  apply rel_bind; [exact H3 | intros _].
  apply rel_bind; [exact H4 | intros _].
  apply rel_bind; [exact H5 | intros _].
  apply rel_bind; [exact H6 | intros _].
  apply rel_bind; [exact H7 | intros _].
  exact H8.
Qed.

Lemma rel_run (ticks : list tick_input) :
  (forall i, keeps R (loop_body custom_functions get_api_key i)) ->
  keeps R (run custom_functions get_api_key ticks).
Proof.
  intros Hpass. induction ticks as [| i ticks IH]; cbn [run].
  - apply rel_ret.
  - apply rel_bind; [apply Hpass | intros _; exact IH].
Qed.

End Rel.

(** [apply], with the class premises ([Reflexive], [Transitive]) looked up. *)
Ltac rel_apply lem := apply lem; try typeclasses eauto.

Ltac rel_steps hook_tac assign_tac :=
  repeat first
    [ solve [auto 2 with nocore]
    | rel_apply @rel_ret; fail | rel_apply @rel_raise; fail
    | rel_apply @rel_system_exit; fail | rel_apply @rel_read; fail
    | rel_apply rel_assign; intros ?; assign_tac
    | rel_apply rel_when
    | rel_apply rel_hook; hook_tac
    | rel_apply @rel_bind; [| intros ?]
    | rel_apply @rel_try_except; [| intros ?]
    | match goal with
      | |- keeps _ (match ?x with _ => _ end) => destruct x
      end
    | progress cbv zeta ].

(** *** The state a pass leaves *)

Section State.

Variable custom_functions : option TF2RPCustom.
Variable get_api_key : string -> string.
Variable wait_time : Z.
Variable wait_time_slow : Z.
Hypothesis Hwb : well_behaved custom_functions.

Abbreviation pass := (loop_body custom_functions get_api_key).
Abbreviation middle := (branch custom_functions get_api_key).
Abbreviation tail := (epilogue custom_functions).

Lemma hooks_keep_shown : hooks_keep custom_functions (same shown).
Proof.
  intros c Hc s. destruct (Hwb c Hc) as (Hb & Hm & Ha).
  unfold same, shown.
  pose proof (view_fields _ _ (Hb s)) as (_ & _ & -> & -> & _).
  pose proof (view_fields _ _ (Hm s)) as (_ & _ & -> & -> & _).
  pose proof (view_fields _ _ (Ha s)) as (_ & _ & -> & -> & _).
  repeat split.
Qed.

Ltac shown_steps :=
  rel_steps
    ltac:(let c := fresh "c" in
          let Hc := fresh "Hc" in
          let s := fresh "s" in
          intros c Hc s; apply (hooks_keep_shown c Hc s))
    ltac:(reflexivity).

Lemma publish_keeps_shown (i : tick_input) :
  keeps (same shown) (send_rpc_activity get_api_key i).
Proof. unfold send_rpc_activity. shown_steps. Qed.

Lemma all_running_state (i : tick_input) (s : session) :
  shown (final (all_running custom_functions get_api_key i s))
  = (if in_menus i then "menus" else "in game", slow_sleep_time s).
Proof.
  unfold all_running. erewrite bind_done by reflexivity.
  assert (keeps (same shown)
            (if update_rpc i then
               assign (set_activity (game_activity i)) ;;
               custom custom_functions loop_middle ;;
               send_rpc_activity get_api_key i
             else custom custom_functions loop_middle)) as Hrest.
  { destruct (update_rpc i).
    - rel_apply @rel_bind; [shown_steps | intros _].
      rel_apply @rel_bind; [shown_steps | intros _].
      apply publish_keeps_shown.
    - shown_steps. }
  destruct (has_checked_class_configs s); cbn [negb when];
    erewrite bind_done by reflexivity;
    destruct (in_menus i); erewrite bind_done by reflexivity;
    rewrite Hrest; reflexivity.
Qed.

Lemma necessary_program_not_running_state (program_name name_short : string)
    (f : session -> session) (s : session) :
  (forall s0, shown (f s0) = shown s0) ->
  shown (final ((necessary_program_not_running program_name name_short ;;
                 assign f) s))
  = ("no " +:+ lower (if bool_decide (name_short = "") then program_name
                      else name_short), true).
Proof.
  intros Hf. unfold necessary_program_not_running, when, bind, read, assign,
    raise, ret. cbn.
  destruct (client_connected s); cbn; [destruct (rpc_client s); cbn |];
    rewrite ?Hf; reflexivity.
Qed.

Lemma middle_state (i : tick_input) (s : session) :
  slow_sleep_time s = false ->
  shown (final (middle i s))
  = (state_after i,
     negb (running (TF2 (scan i)) && running (Discord (scan i))
           && running (Steam (scan i)))).
Proof.
  intros Hslow. unfold branch, state_after, first_missing.
  destruct (running (TF2 (scan i))); cbn [andb negb];
    [destruct (running (Discord (scan i))); cbn [andb negb];
     [destruct (running (Steam (scan i))); cbn [andb negb] |] |].
  - rewrite all_running_state, Hslow. reflexivity.
  - apply necessary_program_not_running_state. reflexivity.
  - apply necessary_program_not_running_state. reflexivity.
  - apply necessary_program_not_running_state. reflexivity.
Qed.


End State.

(** *** Steps taken once *)

Lemma one_shot_same (flag : session -> bool) (count : session -> nat)
    (s s' : session) :
  flag s' = flag s -> count s' = count s -> one_shot flag count s s'.
Proof.
  intros Hf Hc. unfold one_shot. rewrite Hf, Hc.
  destruct (flag s); intuition.
Qed.

Lemma ends_with_bind {A B : Type} (P : session -> Prop) (m : action A)
    (k : A -> action B) :
  (forall a, ends_with P (k a)) -> ends_with P (bind m k).
Proof.
  intros Hk s b s'. unfold bind.
  destruct (m s) as [a s1 | e s1 | s1]; [| discriminate | discriminate].
  apply Hk.
Qed.

Section Once.

Variable custom_functions : option TF2RPCustom.
Variable get_api_key : string -> string.

Abbreviation pass := (loop_body custom_functions get_api_key).
Abbreviation middle := (branch custom_functions get_api_key).
Abbreviation tail := (epilogue custom_functions).
Abbreviation init_once := (one_shot did_init_operations init_runs).
Abbreviation priority_once :=
  (one_shot has_set_process_priority priority_runs).

Section InitOperations.

Hypothesis Hhooks : hooks_keep custom_functions (same init_guard).

Lemma hooks_keep_init_once : hooks_keep custom_functions init_once.
Proof.
  intros c Hc s. destruct (Hhooks c Hc s) as (Hb & Hm & Ha).
  unfold same, init_guard in *.
  injection Hb as Hb1 Hb2. injection Hm as Hm1 Hm2. injection Ha as Ha1 Ha2.
  split; [| split]; apply one_shot_same; assumption.
Qed.

Ltac init_steps :=
  rel_steps
    ltac:(let c := fresh "c" in
          let Hc := fresh "Hc" in
          let s := fresh "s" in
          intros c Hc s; apply (hooks_keep_init_once c Hc s))
    ltac:(apply one_shot_same; reflexivity).

(** What follows the init operations in a pass. *)
Lemma after_init_operations_once :
  keeps init_once
    (warn <- read no_condebug ;;
     when warn (assign (set_fast_next_loop true)) ;;
     lowered <- read has_set_process_priority ;;
     when (negb lowered)
       (assign (add_effect LowerPriority) ;;
        assign (set_has_set_process_priority true)) ;;
     cc <- read client_connected ;;
     rc <- read rpc_client ;;
     ret (cc, rc)).
Proof. init_steps. Qed.

Lemma init_operations_once :
  keeps init_once init_operations
  /\ ends_with (fun s => did_init_operations s = true) init_operations.
Proof.
  split.
  - intros s. unfold init_operations, bind, read, when, assign, ret. cbn.
    destruct (did_init_operations s) eqn:Hdid; cbn; unfold one_shot; cbn;
      rewrite Hdid; split; intros H; try discriminate; auto.
  - intros s a s'. unfold init_operations, bind, read, when, assign, ret.
    cbn. destruct (did_init_operations s) eqn:Hdid; cbn;
      intros [= ?]; subst s'; [exact Hdid | reflexivity].
Qed.

Lemma tail_init_once :
  keeps init_once tail
  /\ ends_with (fun s => did_init_operations s = true) tail.
Proof.
  destruct init_operations_once as [Hkeep Hends].
  pose proof after_init_operations_once as Hafter.
  unfold epilogue. split.
  - rel_apply @rel_bind; [init_steps | intros _].
    rel_apply @rel_bind; [exact Hkeep | intros _]. exact Hafter.
  - apply ends_with_bind. intros _ s a s'. unfold bind at 1.
    destruct (init_operations s) as [[] s1 | e s1 | s1] eqn:Hinit;
      [| discriminate | discriminate].
    intros Hdone. apply Hends in Hinit.
    pose proof (Hafter s1) as [Hstay _]. cbv beta in Hstay.
    rewrite Hdone in Hstay. cbn [final] in Hstay. apply Hstay. exact Hinit.
Qed.

Lemma pass_init_once (i : tick_input) :
  keeps init_once (pass i)
  /\ ends_with (fun s => did_init_operations s = true) (pass i).
Proof.
  destruct tail_init_once as [Hkeep Hends]. split.
  - rel_apply @rel_pass; try (intros; init_steps; fail); try exact Hkeep.
    unfold branch, all_running, necessary_program_not_running,
      send_rpc_activity. init_steps.
  - unfold loop_body. destruct (gui_alive i); cbn [negb];
      [| intros s a s'; discriminate].
    do 8 (apply ends_with_bind; intros ?). exact Hends.
Qed.


End InitOperations.

Section Priority.

Hypothesis Hhooks : hooks_keep custom_functions (same priority_guard).

Lemma hooks_keep_priority_once : hooks_keep custom_functions priority_once.
Proof.
  intros c Hc s. destruct (Hhooks c Hc s) as (Hb & Hm & Ha).
  unfold same, priority_guard in *.
  injection Hb as Hb1 Hb2. injection Hm as Hm1 Hm2. injection Ha as Ha1 Ha2.
  split; [| split]; apply one_shot_same; assumption.
Qed.

Ltac priority_steps :=
  rel_steps
    ltac:(let c := fresh "c" in
          let Hc := fresh "Hc" in
          let s := fresh "s" in
          intros c Hc s; apply (hooks_keep_priority_once c Hc s))
    ltac:(apply one_shot_same; reflexivity).

(** The lowering of the priority and the return at the end of a pass. *)
Lemma lowering_once :
  keeps priority_once
    (lowered <- read has_set_process_priority ;;
     when (negb lowered)
       (assign (add_effect LowerPriority) ;;
        assign (set_has_set_process_priority true)) ;;
     cc <- read client_connected ;;
     rc <- read rpc_client ;;
     ret (cc, rc)).
Proof.
  intros s. unfold bind, read, when, assign, ret. cbn.
  destruct (has_set_process_priority s) eqn:Hset; cbn; unfold one_shot; cbn;
    rewrite Hset; split; intros H; try discriminate; auto.
Qed.

Lemma pass_priority_once (i : tick_input) : keeps priority_once (pass i).
Proof.
  rel_apply @rel_pass; try (intros; priority_steps; fail).
  - unfold branch, all_running, necessary_program_not_running,
      send_rpc_activity. priority_steps.
  - unfold epilogue, init_operations.
    rel_apply @rel_bind; [priority_steps | intros _].
    rel_apply @rel_bind; [priority_steps | intros _].
    rel_apply @rel_bind; [priority_steps | intros warn].
    rel_apply @rel_bind; [priority_steps | intros _].
    exact lowering_once.
Qed.

(** X15.  With custom code (if any) that leaves the guard and the count
    alone, the priority of the process is lowered at most once in the life
    of the process, and never when the application was constructed with
    [set_process_priority=False]. *)
Theorem priority_lowered_at_most_once (ticks : list tick_input) :
  (priority_runs (final (run custom_functions get_api_key ticks (init true)))
   <= 1)%nat
  /\ priority_runs
       (final (run custom_functions get_api_key ticks (init false)))
     = 0%nat.
Proof.
  assert (keeps priority_once (run custom_functions get_api_key ticks))
    as Hrun.
  { rel_apply @rel_run. intros i. apply pass_priority_once. }
  split.
  - destruct (Hrun (init true)) as [_ Hfresh].
    destruct (Hfresh eq_refl) as [[_ ->] | [_ ->]]; cbn; lia.
  - destruct (Hrun (init false)) as [Hstay _].
    destruct (Hstay eq_refl) as [_ ->]. reflexivity.
Qed.

End Priority.

End Once.

(** *** User names *)

Section Names.

Variable custom_functions : option TF2RPCustom.
Variable get_api_key : string -> string.
Hypothesis Hhooks : hooks_keep custom_functions names_grow.

Ltac names_steps :=
  rel_steps
    ltac:(let c := fresh "c" in
          let Hc := fresh "Hc" in
          let s := fresh "s" in
          intros c Hc s; apply (Hhooks c Hc s))
    ltac:(unfold names_grow; cbn; reflexivity).

Lemma steam_configs_names_grow (i : tick_input) :
  keeps names_grow (steam_configs i).
Proof.
  intros s. unfold steam_configs, when, bind, read, assign, ret.
  destruct (running (Steam (scan i))); [| reflexivity].
  destruct (bool_decide (steam_config_mtimes s = ∅) || _); [| reflexivity].
  cbn. destruct (nonempty (steam_config_results i)); cbn;
    unfold names_grow; cbn; set_solver.
Qed.

Lemma pass_names_grow (i : tick_input) :
  keeps names_grow (loop_body custom_functions get_api_key i).
Proof.
  pose proof (steam_configs_names_grow i) as Hsteam.
  rel_apply @rel_pass; try (intros; names_steps; fail).
  unfold branch, all_running, necessary_program_not_running,
    send_rpc_activity. names_steps.
Qed.

(** X16.  With custom code (if any) that only adds user names, the set of
    user names with [-condebug] only grows while the loop runs: a name
    found once stays, however the passes end. *)
Theorem usernames_only_grow (ticks : list tick_input) (s : session) :
  valid_usernames s
  ⊆ valid_usernames (final (run custom_functions get_api_key ticks s)).
Proof.
  assert (keeps names_grow (run custom_functions get_api_key ticks)) as Hrun.
  { rel_apply @rel_run. intros i. apply pass_names_grow. }
  apply Hrun.
Qed.

End Names.

(** *** Connections *)

Section Connections.

Variable custom_functions : option TF2RPCustom.
Variable get_api_key : string -> string.

Abbreviation publish := (send_rpc_activity get_api_key).

(** X17.  The connection is made lazily and reused.  A publish in a
    connected session does not call [connect()] and keeps the client; a
    publish in a session that is not connected makes a new client and calls
    [connect()] on it once.  Afterwards the connected flag is set exactly
    when it was set before or both [connect()] and [update_activity()]
    returned: a publish never clears the flag. *)
Theorem connection_is_lazy_and_reused (i : tick_input) (s : session) :
  let s' := final (publish i s) in
  (client_connected s = true ->
   connects s' = connects s /\ rpc_client s' = rpc_client s)
  /\ (client_connected s = false ->
      connects s' = S (connects s)
      /\ exists c, rpc_client s' = Some c
                   /\ client_id c = get_api_key "discord2")
  /\ (client_connected s' = true <->
      client_connected s = true
      \/ (ipc_connect i = None /\ ipc_update i = None)).
Proof.
  intros s'. subst s'.
  unfold send_rpc_activity, try_except, bind, when, read, assign, raise, ret.
  destruct (client_connected s) eqn:Hcc; cbn.
  - destruct (rpc_client s) as [c |] eqn:Hrc; cbn;
      [destruct (ipc_update i) as [e |];
       [destruct (recognized (exc_str e)) |] |
       destruct (recognized _)];
      cbn; rewrite ?Hcc, ?Hrc;
      (split; [intros _; split; reflexivity |]);
      (split; [discriminate | split; auto]).
  - destruct (ipc_connect i) as [ec |]; cbn;
      [destruct (recognized (exc_str ec)) |
       destruct (ipc_update i) as [e |];
       [destruct (recognized (exc_str e)) |]];
      cbn; rewrite ?Hcc;
      (split; [discriminate |]);
      (split; [intros _; split; [reflexivity | eexists; split; reflexivity] |]);
      split; try discriminate; auto;
      intros [H | [H1 H2]]; discriminate.
Qed.

Section Balance.

Hypothesis Hhooks : hooks_keep custom_functions (same connection_counts).

Abbreviation balanced := (preserves connections_balance).

Lemma hooks_keep_balanced : hooks_keep custom_functions balanced.
Proof.
  intros c Hc s. destruct (Hhooks c Hc s) as (Hb & Hm & Ha).
  unfold same, connection_counts in *.
  injection Hb as Hb1 Hb2 Hb3. injection Hm as Hm1 Hm2 Hm3.
  injection Ha as Ha1 Ha2 Ha3.
  unfold preserves, connections_balance.
  rewrite Hb1, Hb2, Hb3, Hm1, Hm2, Hm3, Ha1, Ha2, Ha3. auto.
Qed.

Ltac balance_steps :=
  rel_steps
    ltac:(let c := fresh "c" in
          let Hc := fresh "Hc" in
          let s := fresh "s" in
          intros c Hc s; apply (hooks_keep_balanced c Hc s))
    ltac:(let H := fresh "H" in intros H; exact H).

Lemma publish_balanced (i : tick_input) : keeps balanced (publish i).
Proof.
  intros s. unfold preserves, connections_balance.
  unfold send_rpc_activity, try_except, bind, when, read, assign, raise, ret.
  destruct (client_connected s) eqn:Hcc; cbn.
  - destruct (rpc_client s) as [c |]; cbn;
      [destruct (ipc_update i) as [e |];
       [destruct (recognized (exc_str e)) |] |
       destruct (recognized _)];
      cbn; rewrite ?Hcc; unfold disconnects, connects; cbn; lia.
  - destruct (ipc_connect i) as [ec |]; cbn;
      [destruct (recognized (exc_str ec)) |
       destruct (ipc_update i) as [e |];
       [destruct (recognized (exc_str e)) |]];
      cbn; rewrite ?Hcc; unfold disconnects, connects; cbn; lia.
Qed.

Lemma necessary_program_not_running_balanced
    (program_name name_short : string) :
  keeps balanced (necessary_program_not_running program_name name_short).
Proof.
  intros s. unfold preserves, connections_balance.
  unfold necessary_program_not_running, bind, when, read, assign, raise, ret.
  cbn. destruct (client_connected s) eqn:Hcc; cbn;
    [destruct (rpc_client s) as [c |]; cbn |];
    rewrite ?Hcc; unfold disconnects, connects; cbn; lia.
Qed.

Lemma pass_balanced (i : tick_input) :
  keeps balanced (loop_body custom_functions get_api_key i).
Proof.
  pose proof (publish_balanced i) as Hpublish.
  pose proof necessary_program_not_running_balanced as Hmissing.
  rel_apply @rel_pass; try (intros; balance_steps; fail).
  unfold branch, all_running. balance_steps.
Qed.


End Balance.

End Connections.

(** *** What escapes the loop *)

Section Escapes.

Variable custom_functions : option TF2RPCustom.
Variable get_api_key : string -> string.
Hypothesis Hwb : well_behaved custom_functions.

Abbreviation publish := (send_rpc_activity get_api_key).
Abbreviation pass := (loop_body custom_functions get_api_key).
Abbreviation middle := (branch custom_functions get_api_key).
Abbreviation tail := (epilogue custom_functions).

Lemma unrecognized (message : string) :
  recognized message = false ->
  message ≠ "Can't send data to Discord via IPC."
  /\ message ≠ "Can't connect to Discord Client.".
Proof.
  intros Hrec. split; intros ->; discriminate Hrec.
Qed.

Lemma publish_raises (i : tick_input) (s s' : session) (e : py_exc) :
  has_client_when_connected s ->
  publish i s = Raised e s' ->
  raised_by_discord i e.
Proof.
  intros Hinv. unfold raised_by_discord.
  unfold send_rpc_activity, try_except, bind, when, read, assign, raise, ret.
  destruct (client_connected s) eqn:Hcc; cbn.
  - destruct (rpc_client s) as [c |] eqn:Hrc; [| exfalso; apply Hinv; auto].
    destruct (ipc_update i) as [e0 |]; [| discriminate].
    destruct (recognized (exc_str e0)) eqn:Hrec; [discriminate |].
    intros [= <- _]. split; [right; reflexivity | apply unrecognized, Hrec].
  - destruct (ipc_connect i) as [ec |]; cbn.
    + destruct (recognized (exc_str ec)) eqn:Hrec; [discriminate |].
      intros [= <- _]. split; [left; reflexivity | apply unrecognized, Hrec].
    + destruct (ipc_update i) as [e0 |]; [| discriminate].
      destruct (recognized (exc_str e0)) eqn:Hrec; [discriminate |].
      intros [= <- _]. split; [right; reflexivity | apply unrecognized, Hrec].
Qed.

Lemma all_running_raises (i : tick_input) (s s' : session) (e : py_exc) :
  has_client_when_connected s ->
  all_running custom_functions get_api_key i s = Raised e s' ->
  update_rpc i = true /\ raised_by_discord i e.
Proof.
  intros Hinv. unfold all_running. erewrite bind_done by reflexivity.
  assert (exists s1,
             when (negb (has_checked_class_configs s))
               (assign (add_effect (ClassConfigFiles (path (TF2 (scan i))))) ;;
                assign (set_has_checked_class_configs true)) s = Done tt s1
             /\ has_client_when_connected s1) as (s1 & Hs1 & Hinv1).
  { destruct (has_checked_class_configs s); eexists; split;
      try reflexivity; exact Hinv. }
  rewrite (bind_done _ _ _ _ _ Hs1).
  assert (exists s2,
             (if in_menus i then assign (set_test_state "menus")
              else assign (set_test_state "in game")) s1 = Done tt s2
             /\ has_client_when_connected s2) as (s2 & Hs2 & Hinv2).
  { destruct (in_menus i); eexists; split; try reflexivity; exact Hinv1. }
  rewrite (bind_done _ _ _ _ _ Hs2).
  destruct (update_rpc i).
  - erewrite bind_done by reflexivity.
    match goal with |- context [bind (custom _ loop_middle) _ ?st] =>
      destruct (hook_done custom_functions loop_middle st)
        as (s3 & Hs3 & Hv3); [intros c Hc; apply (Hwb c Hc) |]
    end.
    rewrite (bind_done _ _ _ _ _ Hs3). intros Hraised.
    split; [reflexivity |].
    apply publish_raises with s3 s'; [| exact Hraised].
    apply (invariant_view _ _ Hv3). exact Hinv2.
  - destruct (hook_done custom_functions loop_middle s2) as (s3 & Hs3 & _);
      [intros c Hc; apply (Hwb c Hc) |].
    rewrite Hs3. discriminate.
Qed.

Lemma pass_raises (i : tick_input) (s s' : session) (e : py_exc) :
  has_client_when_connected s ->
  pass i s = Raised e s' ->
  running (TF2 (scan i)) && running (Discord (scan i))
    && running (Steam (scan i)) = true
  /\ update_rpc i = true /\ raised_by_discord i e.
Proof.
  intros Hinv. destruct (gui_alive i) eqn:Halive;
    [| unfold loop_body; rewrite Halive; discriminate].
  destruct (pass_shape custom_functions get_api_key i s Hwb Halive)
    as (s2 & -> & Hv2).
  assert (has_client_when_connected s2) as Hinv2.
  { apply (invariant_view _ _ Hv2). exact Hinv. }
  unfold bind. destruct (middle i s2) as [[] s3 | e3 s3 | s3] eqn:Hmid;
    [| | discriminate].
  - destruct (epilogue_done custom_functions s3 Hwb) as (ret & s4 & -> & _).
    discriminate.
  - intros [= -> ->]. unfold branch in Hmid.
    destruct (running (TF2 (scan i)) && running (Discord (scan i))
              && running (Steam (scan i))) eqn:Hall.
    + split; [reflexivity |]. apply all_running_raises with s2 s'; assumption.
    + exfalso.
      destruct (branch_missing custom_functions get_api_key i s2 Hinv2 Hall)
        as (s3' & Hs3' & _).
      unfold branch in Hs3'. rewrite Hall in Hs3'. congruence.
Qed.

(** X19.  With custom code (if any) that is unobtrusive, every session the
    loop reaches from the initial one has a client whenever its connected
    flag is set, so that [disconnect()] and [update_activity()] are never
    called on [None]. *)
Theorem reached_sessions_have_a_client (ticks : list tick_input)
    (set_process_priority : bool) :
  has_client_when_connected
    (final (run custom_functions get_api_key ticks
              (init set_process_priority))).
Proof.
  apply run_invariant; [exact Hwb | apply init_invariant].
Qed.


End Escapes.

(** *** Where the loop ends *)

Section Ending.

Variable custom_functions : option TF2RPCustom.
Variable get_api_key : string -> string.

Lemma run_app (ticks later : list tick_input) (s : session) :
  run custom_functions get_api_key (ticks ++ later) s
  = match run custom_functions get_api_key ticks s with
    | Done _ s1 => run custom_functions get_api_key later s1
    | Raised e s1 => Raised e s1
    | Exited s1 => Exited s1
    end.
Proof.
  revert s. induction ticks as [| i ticks IH]; intros s; cbn [app run].
  - reflexivity.
  - unfold bind.
    destruct (loop_body custom_functions get_api_key i s) as [r s1 | e s1 | s1];
      [apply IH | reflexivity | reflexivity].
Qed.

(** X21.  The loop ends with the first pass that does not complete.  If the
    passes so far completed and the next one finds the GUI closed, the loop
    ends with [SystemExit] in the session those passes left: that pass
    assigns nothing and calls nothing.  If a pass raised or exited, the
    passes after it do not happen. *)
Theorem loop_ends_with_the_first_pass_that_fails
    (ticks later : list tick_input) (s : session) :
  (forall s1 closed,
      run custom_functions get_api_key ticks s = Done tt s1 ->
      gui_alive closed = false ->
      run custom_functions get_api_key (ticks ++ closed :: later) s
      = Exited s1)
  /\ (forall e s1,
         run custom_functions get_api_key ticks s = Raised e s1 ->
         run custom_functions get_api_key (ticks ++ later) s = Raised e s1)
  /\ (forall s1,
         run custom_functions get_api_key ticks s = Exited s1 ->
         run custom_functions get_api_key (ticks ++ later) s = Exited s1).
Proof.
  split; [| split].
  - intros s1 closed Hdone Hclosed. rewrite run_app, Hdone. cbn [run].
    unfold bind, loop_body. rewrite Hclosed. reflexivity.
  - intros e s1 Hraised. rewrite run_app, Hraised. reflexivity.
  - intros s1 Hexited. rewrite run_app, Hexited. reflexivity.
Qed.

End Ending.

(** *** The further properties on concrete passes *)

Lemma tweak_keeps {X : Type} (obs : session -> X) :
  (forall a s, obs (set_activity a s) = obs s) ->
  hooks_keep (Some tweak) (same obs).
Proof.
  intros Hobs c [= <-] s. unfold same. cbn.
  split; [reflexivity | split; [apply Hobs | reflexivity]].
Qed.

Lemma tweak_names_grow : hooks_keep (Some tweak) names_grow.
Proof.
  intros c [= <-] s. unfold names_grow. cbn.
  split; [reflexivity | split; reflexivity].
Qed.



Lemma priority_lowered_at_most_once_witness :
  priority_runs (final (run (Some tweak) discord_key [playing; stopped]
                          (init false))) = 0%nat.
Proof.
  destruct (priority_lowered_at_most_once (Some tweak) discord_key
              (tweak_keeps priority_guard (fun _ _ => eq_refl))
              [playing; stopped])
    as [_ Hnever].
  exact Hnever.
Defined.

Lemma usernames_only_grow_witness :
  valid_usernames known_user
  ⊆ valid_usernames
      (final (run (Some tweak) discord_key [logged_in; stopped; discord_broken]
                known_user)).
Proof.
  exact (usernames_only_grow (Some tweak) discord_key tweak_names_grow
           [logged_in; stopped; discord_broken] known_user).
Defined.

Lemma connection_is_lazy_and_reused_witness :
  let s' := final (send_rpc_activity discord_key playing online) in
  connects s' = connects online /\ rpc_client s' = rpc_client online.
Proof.
  destruct (connection_is_lazy_and_reused discord_key playing online)
    as (Hreused & _ & _).
  exact (Hreused eq_refl).
Defined.


Lemma reached_sessions_have_a_client_witness :
  has_client_when_connected
    (final (run (Some tweak) discord_key [playing; stopped; playing]
              (init true))).
Proof.
  exact (reached_sessions_have_a_client (Some tweak) discord_key
           tweak_well_behaved [playing; stopped; playing] true).
Defined.


Lemma loop_ends_with_the_first_pass_that_fails_witness :
  exists s1,
    run (Some tweak) discord_key [playing; stopped] (init true) = Done tt s1
    /\ run (Some tweak) discord_key [playing; stopped; gui_closed; playing]
         (init true) = Exited s1.
Proof.
  destruct (run (Some tweak) discord_key [playing; stopped] (init true))
    as [[] s1 | e s1 | s1] eqn:Hrun; [| discriminate Hrun | discriminate Hrun].
  exists s1. split; [reflexivity |].
  destruct (loop_ends_with_the_first_pass_that_fails (Some tweak) discord_key
              [playing; stopped] [playing] (init true)) as [Hclosed _].
  apply (Hclosed s1 gui_closed Hrun). reflexivity.
Defined.

End MainExtra.
